(** * SkyShield: the geospatial visualisation subsystem

    A shallow embedding of [components/AQMapSection.jsx],
    [components/LegendControl.jsx] and [lib/api.js]: the AQI colour
    classifier, the viewport synchroniser between the primary map and the
    mini map, the search navigator, the one-shot location load and the
    legend control, together with the parts of the JavaScript, React and
    Leaflet semantics those components rely on. *)

From Stdlib Require Import ZArith QArith List String Ascii Bool Lia.
From stdpp Require Import gmap.
Import ListNotations.

Local Open Scope string_scope.
Local Open Scope Z_scope.

(** ** JavaScript values and coercions *)

Module JS.

(** A JavaScript Number: a finite double is identified with the rational
    it denotes (every double is one; [+0] and [-0] compare equal and are
    not told apart). *)
Inductive Number : Type :=
| NaN
| NegInfinity
| Fin (q : Q)
| PosInfinity.

(** The primitive values a JSON payload, or a missing property, can put
    in a field. *)
Inductive Value : Type :=
| Undefined
| Null
| Bool (b : bool)
| Num (n : Number)
| Str (s : string).

Definition ofZ (z : Z) : Number := Fin (inject_Z z).

(** *** Strings: code units below 256 *)

Definition code (c : ascii) : Z := Z.of_N (N_of_ascii c).

(** WhiteSpace and LineTerminator code units (TAB, LF, VT, FF, CR, SP,
    NBSP), the ones [String.prototype.trim] strips. *)
Definition isWhiteSpace (c : ascii) : bool :=
  let n := code c in
  (n =? 9) || (n =? 10) || (n =? 11) || (n =? 12) || (n =? 13)
  || (n =? 32) || (n =? 160).

Fixpoint trimStart (s : string) : string :=
  match s with
  | EmptyString => EmptyString
  | String c r => if isWhiteSpace c then trimStart r else s
  end.

Fixpoint trimEnd (s : string) : string :=
  match s with
  | EmptyString => EmptyString
  | String c r =>
      match trimEnd r with
      | EmptyString => if isWhiteSpace c then EmptyString else String c EmptyString
      | r' => String c r'
      end
  end.

Definition trim (s : string) : string := trimEnd (trimStart s).

(** [toLowerCase] on one code unit: A-Z and the Latin-1 capitals
    (U+00C0..U+00DE without the multiplication sign U+00D7). *)
Definition lowerUnit (c : ascii) : ascii :=
  let n := code c in
  if ((65 <=? n) && (n <=? 90))
     || ((192 <=? n) && (n <=? 222) && negb (n =? 215))
  then ascii_of_N (Z.to_N (n + 32))
  else c.

Fixpoint toLowerCase (s : string) : string :=
  match s with
  | EmptyString => EmptyString
  | String c r => String (lowerUnit c) (toLowerCase r)
  end.

(** [s.includes(q)]: [q] occurs in [s] at some position. *)
Fixpoint includes (s q : string) : bool :=
  if String.prefix q s then true
  else match s with
       | EmptyString => false
       | String _ r => includes r q
       end.

(** [!s] on a string: only the empty string is falsy. *)
Definition notString (s : string) : bool :=
  match s with
  | EmptyString => true
  | String _ _ => false
  end.

(** *** StringToNumber *)

Definition digitOf (radix : Z) (c : ascii) : option Z :=
  let n := code c in
  let v := if (48 <=? n) && (n <=? 57) then Some (n - 48)
           else if (97 <=? n) && (n <=? 102) then Some (n - 87)
           else if (65 <=? n) && (n <=? 70) then Some (n - 55)
           else None in
  match v with
  | Some d => if d <? radix then Some d else None
  | None => None
  end.

Fixpoint digitsValue (radix acc : Z) (cs : list ascii) : option Z :=
  match cs with
  | [] => Some acc
  | c :: r =>
      match digitOf radix c with
      | Some d => digitsValue radix (acc * radix + d) r
      | None => None
      end
  end.

(** At least one digit, all of them digits of the radix. *)
Definition digits1 (radix : Z) (cs : list ascii) : option Z :=
  match cs with
  | [] => None
  | _ => digitsValue radix 0 cs
  end.

Fixpoint splitAt (p : ascii -> bool) (cs : list ascii)
  : list ascii * option (list ascii) :=
  match cs with
  | [] => ([], None)
  | c :: r =>
      if p c then ([], Some r)
      else let (a, b) := splitAt p r in (c :: a, b)
  end.

Definition isUnit (n : Z) (c : ascii) : bool := code c =? n.

(** SignedInteger: an optional sign and at least one decimal digit. *)
Definition signedInteger (cs : list ascii) : option Z :=
  match cs with
  | c :: r =>
      if isUnit 43 c then digits1 10 r
      else if isUnit 45 c then option_map Z.opp (digits1 10 r)
      else digits1 10 cs
  | [] => None
  end.

(** The mathematical value of a StrUnsignedDecimalLiteral other than
    [Infinity]: digits, an optional fraction, an optional exponent. *)
Definition unsignedDecimal (cs : list ascii) : option Q :=
  let (mant, ex) := splitAt (fun c => isUnit 101 c || isUnit 69 c) cs in
  let (ip, fp) := splitAt (isUnit 46) mant in
  let fr := match fp with Some f => f | None => [] end in
  let expo := match ex with
              | None => Some 0
              | Some e => signedInteger e
              end in
  match ip, fr with
  | [], [] => None
  | _, _ =>
      match digitsValue 10 0 ip, digitsValue 10 0 fr, expo with
      | Some i, Some f, Some e =>
          let scale := 10 ^ Z.of_nat (List.length fr) in
          Some (Qmult (Qmake (i * scale + f) (Z.to_pos scale))
                      (Qpower (inject_Z 10) e))
      | _, _, _ => None
      end
  end.

Definition roundHalfEven (n d : Z) : Z :=
  let q := n / d in
  match (2 * (n mod d) ?= d) with
  | Lt => q
  | Gt => q + 1
  | Eq => if Z.even q then q else q + 1
  end.

(** RoundMVResult: the double nearest to a rational, ties to even, with
    overflow to an infinity. *)
Definition roundToDouble (x : Q) : Number :=
  let n := Z.abs (Qnum x) in
  let d := Zpos (Qden x) in
  if n =? 0 then Fin 0
  else
    let e0 := Z.log2 n - Z.log2 d in
    let below := if 0 <=? e0 then n <? d * 2 ^ e0 else n * 2 ^ (- e0) <? d in
    let e := if below then e0 - 1 else e0 in
    let u := Z.max (e - 52) (-1074) in
    let m := if 0 <=? u then roundHalfEven n (d * 2 ^ u)
             else roundHalfEven (n * 2 ^ (- u)) d in
    let neg := Qnum x <? 0 in
    if (if 0 <=? u then 2 ^ 1024 <=? m * 2 ^ u else false)
    then (if neg then NegInfinity else PosInfinity)
    else
      let s := if neg then - m else m in
      Fin (if 0 <=? u then inject_Z (s * 2 ^ u)
           else Qred (Qmake s (Z.to_pos (2 ^ (- u))))).

Definition unsignedLiteral (cs : list ascii) : Number :=
  if String.eqb (string_of_list_ascii cs) "Infinity" then PosInfinity
  else match unsignedDecimal cs with
       | Some q => roundToDouble q
       | None => NaN
       end.

Definition negate (n : Number) : Number :=
  match n with
  | NaN => NaN
  | NegInfinity => PosInfinity
  | Fin q => Fin (Qopp q)
  | PosInfinity => NegInfinity
  end.

Definition nonDecimal (radix : Z) (cs : list ascii) : Number :=
  match digits1 radix cs with
  | Some v => roundToDouble (inject_Z v)
  | None => NaN
  end.

(** StringToNumber: white space is stripped; the empty string is [+0];
    then a StrDecimalLiteral or an unsigned binary, octal or hexadecimal
    integer literal; anything else is [NaN]. *)
Definition StringToNumber (s : string) : Number :=
  match list_ascii_of_string (trim s) with
  | [] => Fin 0
  | c :: r =>
      if isUnit 43 c then unsignedLiteral r
      else if isUnit 45 c then negate (unsignedLiteral r)
      else match r with
           | p :: ds =>
               if isUnit 48 c && (isUnit 120 p || isUnit 88 p) then nonDecimal 16 ds
               else if isUnit 48 c && (isUnit 111 p || isUnit 79 p) then nonDecimal 8 ds
               else if isUnit 48 c && (isUnit 98 p || isUnit 66 p) then nonDecimal 2 ds
               else unsignedLiteral (c :: r)
           | [] => unsignedLiteral (c :: r)
           end
  end.

Definition ToNumber (v : Value) : Number :=
  match v with
  | Undefined => NaN
  | Null => Fin 0
  | Bool true => Fin 1
  | Bool false => Fin 0
  | Num n => n
  | Str s => StringToNumber s
  end.

(** Number::lessThan; [None] is the specification's [undefined], the
    answer when an operand is [NaN]. *)
Definition lessThan (x y : Number) : option bool :=
  match x, y with
  | NaN, _ | _, NaN => None
  | NegInfinity, NegInfinity => Some false
  | NegInfinity, _ => Some true
  | _, NegInfinity => Some false
  | PosInfinity, _ => Some false
  | Fin _, PosInfinity => Some true
  | Fin p, Fin q => Some (negb (Qle_bool q p))
  end.

(** [v <= k] for a value against a Number: both operands go through
    ToNumber, and the result is [true] only when [k < v] is [false]. *)
Definition le (v : Value) (k : Number) : bool :=
  match lessThan k (ToNumber v) with
  | Some false => true
  | _ => false
  end.

(** ToBoolean: [undefined], [null], [false], [0], [NaN] and the empty
    string are falsy. *)
Definition ToBoolean (v : Value) : bool :=
  match v with
  | Undefined | Null => false
  | Bool b => b
  | Num NaN => false
  | Num (Fin q) => negb (Qeq_bool q 0)
  | Num _ => true
  | Str s => negb (notString s)
  end.

(** [a ?? b] *)
Definition coalesce (a b : Value) : Value :=
  match a with
  | Undefined | Null => b
  | _ => a
  end.

End JS.

(** ** The AQI classifier *)

Module Classifier.
Import JS.

(** [getColor] of [AQMapSection.jsx]. *)
Definition getColor (aqi : Value) : string :=
  if le aqi (ofZ 50) then "green"
  else if le aqi (ofZ 100) then "yellow"
  else if le aqi (ofZ 150) then "orange"
  else if le aqi (ofZ 200) then "red"
  else if le aqi (ofZ 300) then "purple"
  else "maroon".

Inductive SeverityBand : Type :=
| Good
| Moderate
| SensitiveUnhealthy
| Unhealthy
| VeryUnhealthy
| Hazardous.

(** The swatches of the legend in [LegendControl.jsx], top to bottom:
    background colour and label. *)
Definition legendEntries : list (string * string) :=
  [ ("green", "Good (0-50)");
    ("yellow", "Moderate (51-100)");
    ("orange", "Unhealthy for Sensitive (101-150)");
    ("red", "Unhealthy (151-200)");
    ("purple", "Very Unhealthy (201-300)");
    ("maroon", "Hazardous (301+)") ].

Definition bands : list SeverityBand :=
  [Good; Moderate; SensitiveUnhealthy; Unhealthy; VeryUnhealthy; Hazardous].

(** The band a colour stands for: its row in the legend. *)
Fixpoint bandOfRow (rows : list (string * string)) (bs : list SeverityBand)
         (color : string) : option SeverityBand :=
  match rows, bs with
  | (c, _) :: rows', b :: bs' =>
      if String.eqb c color then Some b else bandOfRow rows' bs' color
  | _, _ => None
  end.

Definition bandOfColor : string -> option SeverityBand :=
  bandOfRow legendEntries bands.

(** Position in the order Good < Moderate < ... < Hazardous. *)
Definition severity (b : SeverityBand) : nat :=
  match b with
  | Good => 0
  | Moderate => 1
  | SensitiveUnhealthy => 2
  | Unhealthy => 3
  | VeryUnhealthy => 4
  | Hazardous => 5
  end.

End Classifier.

(** ** The Leaflet map surface *)

Module Leaflet.

Record LatLng : Type := mkLatLng { lat : Q; lng : Q }.

(** A function value: its identity, which [on] and [off] compare, and
    the map handle its body closes over. *)
Record Closure : Type := mkClosure { ident : nat; env : nat }.

Record Listener : Type := mkListener { evType : string; fn : Closure }.

(** A map instance: its view, the listeners of its Evented mixin in
    registration order, and the controls added to it. *)
Record MapObj : Type := mkMap {
  center : LatLng;
  zoom : Z;
  listeners : list Listener;
  controls : list nat
}.

Definition sameListener (t : string) (f : Closure) (l : Listener) : bool :=
  String.eqb (evType l) t && Nat.eqb (ident (fn l)) (ident f).

(** [map.on(type, fn)]: a function already registered for the type is
    not registered twice. *)
Definition on (t : string) (f : Closure) (m : MapObj) : MapObj :=
  if existsb (sameListener t f) (listeners m) then m
  else mkMap (center m) (zoom m) (listeners m ++ [mkListener t f]) (controls m).

Fixpoint removeListener (t : string) (f : Closure) (ls : list Listener)
  : list Listener :=
  match ls with
  | [] => []
  | l :: r => if sameListener t f l then r else l :: removeListener t f r
  end.

(** [map.off(type, fn)] *)
Definition off (t : string) (f : Closure) (m : MapObj) : MapObj :=
  mkMap (center m) (zoom m) (removeListener t f (listeners m)) (controls m).

(** The functions [map.fire(type)] calls, in order. *)
Definition listening (t : string) (m : MapObj) : list Closure :=
  List.map fn (List.filter (fun l => String.eqb (evType l) t) (listeners m)).

(** The view after [map.setView(center, zoom, { animate: false })]. *)
Definition setView (c : LatLng) (z : Z) (m : MapObj) : MapObj :=
  mkMap c z (listeners m) (controls m).

(** [control.addTo(map)] and [control.remove()] on the map's side. *)
Definition addControl (k : nat) (m : MapObj) : MapObj :=
  mkMap (center m) (zoom m) (listeners m) (controls m ++ [k]).

Definition removeControl (k : nat) (m : MapObj) : MapObj :=
  mkMap (center m) (zoom m) (listeners m)
        (List.filter (fun k' => negb (Nat.eqb k' k)) (controls m)).

End Leaflet.

(** ** The map section component *)

Module AQMapSection.
Import JS Classifier.

Record Location : Type := mkLocation {
  name : option string;
  lat : Q;
  lon : Q;
  aqi : Value;
  condition : string
}.

(** What a [useEffect] callback hands back to React. *)
Inductive Cleanup : Type :=
| OffMoveZoomend (map : nat) (setCenter : Leaflet.Closure)
| RemoveLegend (legend : nat).

(** A continuation waiting on [import("leaflet")]. *)
Inductive Task : Type :=
| LegendThen (map : nat).

(** The Leaflet instances by identity, the mini-map state and ref of
    the component, the promise continuations not yet run, and the next
    unused object identity. *)
Record World : Type := mkWorld {
  leaflet : gmap nat Leaflet.MapObj;
  miniCenter : option Leaflet.LatLng;
  miniZoom : Z;
  miniMapRef : option nat;
  pending : list Task;
  nextId : nat
}.

Definition setMiniCenter (c : option Leaflet.LatLng) (w : World) : World :=
  mkWorld (leaflet w) c (miniZoom w) (miniMapRef w) (pending w) (nextId w).

Definition setMiniZoom (z : Z) (w : World) : World :=
  mkWorld (leaflet w) (miniCenter w) z (miniMapRef w) (pending w) (nextId w).

Definition withLeaflet (l : gmap nat Leaflet.MapObj) (w : World) : World :=
  mkWorld l (miniCenter w) (miniZoom w) (miniMapRef w) (pending w) (nextId w).

Definition withPending (p : list Task) (w : World) : World :=
  mkWorld (leaflet w) (miniCenter w) (miniZoom w) (miniMapRef w) p (nextId w).

Definition allocate (w : World) : nat * World :=
  (nextId w,
   mkWorld (leaflet w) (miniCenter w) (miniZoom w) (miniMapRef w) (pending w)
           (S (nextId w))).

(** A method call on the map instance [m]. *)
Definition onMap (m : nat) (f : Leaflet.MapObj -> Leaflet.MapObj) (w : World)
  : World :=
  withLeaflet (alter f m (leaflet w)) w.

(** *** Viewport synchroniser *)

(** [setCenter], the closure of the second effect, over the map handle
    it captured (a handle always names an instance; the first branch is
    there for totality). The mini map has no listeners of this
    component, so the events its [setView] fires call nothing here. *)
Definition setCenter (map : nat) (w : World) : World :=
  match leaflet w !! map with
  | None => w
  | Some pm =>
      let center := Leaflet.center pm in
      let w := setMiniCenter (Some center) w in
      let w := setMiniZoom (Z.max 1 (Z.min 7 (Leaflet.zoom pm - 2))) w in
      match miniMapRef w with
      | Some mini =>
          onMap mini
            (Leaflet.setView center (Z.max 1 (Z.min 7 (Leaflet.zoom pm - 2))))
            w
      | None => w
      end
  end.

Definition call (f : Leaflet.Closure) (w : World) : World :=
  setCenter (Leaflet.env f) w.

(** [m.fire(type)]: every function registered for the type is called. *)
Definition fire (m : nat) (t : string) (w : World) : World :=
  match leaflet w !! m with
  | None => w
  | Some mo => fold_left (fun w f => call f w) (Leaflet.listening t mo) w
  end.

(** The effect on [[map]]: nothing without a map; otherwise one call of
    [setCenter], two registrations, and the cleanup that undoes them. *)
Definition syncEffect (map : option nat) (w : World) : World * option Cleanup :=
  match map with
  | None => (w, None)
  | Some m =>
      let (k, w) := allocate w in
      let setCenterFn := Leaflet.mkClosure k m in
      let w := call setCenterFn w in
      let w := onMap m (Leaflet.on "move" setCenterFn) w in
      let w := onMap m (Leaflet.on "zoomend" setCenterFn) w in
      (w, Some (OffMoveZoomend m setCenterFn))
  end.

(** *** Legend control ([LegendControl.jsx]) *)

(** The callback given to [import("leaflet").then]: a new control is
    added to the map, and a function removing it is the callback's
    return value. *)
Definition legendThen (map : nat) (w : World) : World * Cleanup :=
  let (legend, w) := allocate w in
  (onMap map (Leaflet.addControl legend) w, RemoveLegend legend).

(** The effect of [LegendControl]: the import is started and its
    continuation queued; the effect callback itself returns nothing. *)
Definition legendEffect (map : option nat) (w : World) : World * option Cleanup :=
  match map with
  | None => (w, None)
  | Some m => (withPending (pending w ++ [LegendThen m]) w, None)
  end.

Definition runTask (t : Task) (w : World) : World :=
  match t with
  | LegendThen m => fst (legendThen m w)
  end.

(** The pending continuations run; what they return settles a promise
    nobody holds. *)
Definition settle (w : World) : World :=
  fold_left (fun w t => runTask t w) (pending w) (withPending [] w).

(** *** What Leaflet does with the primary map during a gesture *)

Definition moveTo (m : nat) (c : Leaflet.LatLng) (z : Z) (w : World) : World :=
  onMap m (Leaflet.setView c z) w.


(** *** React's handling of an effect *)

Definition runCleanup (c : option Cleanup) (w : World) : World :=
  match c with
  | None => w
  | Some (OffMoveZoomend m f) =>
      let w := onMap m (Leaflet.off "move" f) w in
      onMap m (Leaflet.off "zoomend" f) w
  | Some (RemoveLegend k) =>
      withLeaflet (Leaflet.removeControl k <$> leaflet w) w
  end.

(** A component instance with one effect: the world it acts on, the
    cleanup React keeps for the effect, and the dependency of the last
    run ([None] while unmounted). *)
Record Instance : Type := mkInstance {
  world : World;
  kept : option Cleanup;
  deps : option (option nat)
}.

Inductive Lifecycle : Type :=
| Render (map : option nat)
| Unmount
| Settle
| Moved (m : nat) (c : Leaflet.LatLng) (z : Z) (type : string).

Definition Effect : Type := option nat -> World -> World * option Cleanup.

(** A first render, or one with a changed dependency, runs the kept
    cleanup and then the effect; unmounting runs the kept cleanup;
    [Settle] lets the pending promise continuations run; [Moved] is the
    map [m] arriving at a view and firing an event of the given type. *)
Definition step (effect : Effect) (s : Instance) (e : Lifecycle) : Instance :=
  match e with
  | Render map =>
      if decide (deps s = Some map) then s
      else
        let (w, c) := effect map (runCleanup (kept s) (world s)) in
        mkInstance w c (Some map)
  | Unmount => mkInstance (runCleanup (kept s) (world s)) None None
  | Settle => mkInstance (settle (world s)) (kept s) (deps s)
  | Moved m c z t =>
      mkInstance (fire m t (moveTo m c z (world s))) (kept s) (deps s)
  end.

Definition run (effect : Effect) (w : World) (es : list Lifecycle) : Instance :=
  fold_left (step effect) es (mkInstance w None None).

(** The listeners of the map instance [j], when it exists. *)
Definition listenersAt (w : World) (j : nat) : option (list Leaflet.Listener) :=
  Leaflet.listeners <$> leaflet w !! j.

Definition viewOf (mo : Leaflet.MapObj) : Leaflet.LatLng * Z :=
  (Leaflet.center mo, Leaflet.zoom mo).

(** The overview viewport: the mini-map state of the component and, when
    the mini map exists, its Leaflet view. *)
Definition overview (w : World)
  : option Leaflet.LatLng * Z * option (Leaflet.LatLng * Z) :=
  (miniCenter w, miniZoom w,
   match miniMapRef w with
   | Some mini => viewOf <$> leaflet w !! mini
   | None => None
   end).

(** The legend controls attached to map instances. *)
Definition activeLegends (w : World) : list nat :=
  List.concat (List.map (fun p => Leaflet.controls (snd p)) (map_to_list (leaflet w))).

(** *** The location load and the render *)

Inductive Error : Type :=
| NetworkError (message : string)
| TypeError.

Inductive Settled (A : Type) : Type :=
| Fulfilled (a : A)
| Rejected (e : Error).
Arguments Fulfilled {A} a.
Arguments Rejected {A} e.

(** The body of the response: nothing to read properties from, or an
    object and its [locations] property when it has a truthy one. *)
Inductive Body : Type :=
| Nullish
| Object (locations : option (list Location)).

(** The React state of the component that rendering and searching
    read, and the lines written to the console. *)
Record Component : Type := mkComponent {
  locations : list Location;
  map : option nat;
  loading : bool;
  search : string;
  L : bool;
  console : list Error
}.

Definition initial : Component := mkComponent [] None true "" false [].

Definition setLocations (ls : list Location) (c : Component) : Component :=
  mkComponent ls (map c) (loading c) (search c) (L c) (console c).

Definition setLoading (b : bool) (c : Component) : Component :=
  mkComponent (locations c) (map c) b (search c) (L c) (console c).

Definition consoleError (e : Error) (c : Component) : Component :=
  mkComponent (locations c) (map c) (loading c) (search c) (L c)
              (console c ++ [e]).

(** A promise settled so far, with the state its callbacks left. *)
Definition Promise (A : Type) : Type := Settled A * Component.

Definition andThen {A B : Type} (p : Promise A)
           (f : A -> Component -> Promise B) : Promise B :=
  match p with
  | (Fulfilled a, c) => f a c
  | (Rejected e, c) => (Rejected e, c)
  end.

Definition orCatch {A : Type} (p : Promise A)
           (f : Error -> Component -> Promise A) : Promise A :=
  match p with
  | (Fulfilled a, c) => (Fulfilled a, c)
  | (Rejected e, c) => f e c
  end.

Definition andFinally {A : Type} (p : Promise A)
           (f : Component -> Component) : Promise A :=
  (fst p, f (snd p)).

(** [fetchAirQuality] of [lib/api.js]: the settled request, its [data]. *)
Definition fetchAirQuality (response : Settled Body) (c : Component)
  : Promise Body :=
  (response, c).

(** The third effect: [then], [catch], [finally]. *)
Definition loadEffect (response : Settled Body) (c : Component) : Promise unit :=
  andFinally
    (orCatch
       (andThen (fetchAirQuality response c)
          (fun data c =>
             match data with
             | Nullish => (Rejected TypeError, c)
             | Object (Some ls) => (Fulfilled tt, setLocations ls c)
             | Object None => (Fulfilled tt, setLocations [] c)
             end))
       (fun err c => (Fulfilled tt, consoleError err c)))
    (setLoading false).

Record Marker : Type := mkMarker {
  key : nat;
  position : Q * Q;
  iconBackground : string;
  iconText : Value;
  popupName : option string;
  popupCondition : string;
  click : Location
}.

Inductive View : Type :=
| LoadingMap
| NoDataAvailable
| Maps (center : Q * Q) (markers : list Marker) (legend : option nat).

Definition marker (i : nat) (loc : Location) : Marker :=
  mkMarker i (lat loc, lon loc) (getColor (aqi loc)) (aqi loc)
           (name loc) (condition loc) loc.

Fixpoint mapIndexed {A B : Type} (f : nat -> A -> B) (i : nat) (l : list A)
  : list B :=
  match l with
  | [] => []
  | x :: r => f i x :: mapIndexed f (S i) r
  end.

(** The body of the component after its hooks: the two early returns,
    then the map with a marker per location once Leaflet is loaded. *)
Definition render (c : Component) : View :=
  if loading c then LoadingMap
  else
    match locations c with
    | [] => NoDataAvailable
    | first :: _ =>
        Maps (lat first, lon first)
             (if L c then mapIndexed marker 0 (locations c) else [])
             (map c)
    end.

Definition markersOf (v : View) : list Marker :=
  match v with
  | Maps _ ms _ => ms
  | _ => []
  end.

(** *** Search navigator *)

(** Calls that leave the component. *)
Inductive Action : Type :=
| FlyTo (map : nat) (target : Q * Q) (zoom : Z) (animate : bool)
| OnSelect (callback : nat) (loc : Location).

(** [a || b] on strings. *)
Definition strOr (a b : string) : string := if notString a then b else a.

(** [l.name || ""] *)
Definition nameOr (l : Location) : string :=
  match name l with
  | Some n => strOr n ""
  | None => ""
  end.

(** [onSelect && onSelect(found)] *)
Definition emit (onSelect : option nat) (found : Location) : list Action :=
  match onSelect with
  | Some f => [OnSelect f found]
  | None => []
  end.

Definition handleSearch (onSelect : option nat) (c : Component) : list Action :=
  let qRaw := trim (strOr (search c) "") in
  if notString qRaw then []
  else
    let q := toLowerCase qRaw in
    let found := List.find (fun l => includes (toLowerCase (nameOr l)) q)
                           (locations c) in
    match found, map c with
    | Some found, Some map =>
        FlyTo map (lat found, lon found) 8 true :: emit onSelect found
    | _, _ => []
    end.

(** The [click] handler of a marker: [() => onSelect && onSelect(loc)]. *)
Definition clickMarker (onSelect : option nat) (mk : Marker) : list Action :=
  emit onSelect (click mk).

(** *** The two map containers *)

Definition setMap (m : option nat) (c : Component) : Component :=
  mkComponent (locations c) m (loading c) (search c) (L c) (console c).

(** The main [MapContainer], rendered once there are locations: a new
    Leaflet map at [center] and zoom 6, handed to [whenCreated], which
    stores it with [setMap]. *)
Definition mainMapCreated (c : Component) (w : World) : Component * World :=
  match render c with
  | Maps center _ _ =>
      let (m, w) := allocate w in
      (setMap (Some m) c,
       withLeaflet
         (<[m := Leaflet.mkMap (Leaflet.mkLatLng (fst center) (snd center)) 6 [] []]>
            (leaflet w)) w)
  | _ => (c, w)
  end.

(** The mini [MapContainer], rendered once [miniCenter] is set: a new
    Leaflet map at [miniCenter] and [miniZoom], handed to [whenCreated],
    which stores it in [miniMapRef]. *)
Definition miniMapCreated (w : World) : World :=
  match miniCenter w with
  | Some c =>
      let (m, w) := allocate w in
      mkWorld (<[m := Leaflet.mkMap c (miniZoom w) [] []]> (leaflet w))
              (miniCenter w) (miniZoom w) (Some m) (pending w) (nextId w)
  | None => w
  end.

End AQMapSection.

(** ** The vocabulary of the specification *)

Module Wording.
Import JS Classifier AQMapSection.

(** [clamp(x, lo, hi)] *)
Definition clamp (x lo hi : Z) : Z :=
  if x <? lo then lo else if hi <? x then hi else x.

(** An AQI that is absent (no property, or [null]) or a string that
    spells no number. *)
Definition absentOrNonNumeric (v : Value) : Prop :=
  match v with
  | Undefined | Null => True
  | Str s => trim s = "" \/ StringToNumber s = NaN
  | Bool _ | Num _ => False
  end.

(** [q] is a substring of [s]. *)
Definition contains (s q : string) : Prop :=
  exists a b : string, s = (a ++ q ++ b)%string.

(** The case-folded name of the location contains the folded query. *)
Definition nameMatches (q : string) (l : Location) : Prop :=
  contains (toLowerCase (nameOr l)) q.

(** [found] is the first location of the directory, in its order, whose
    name matches. *)
Definition firstMatch (q : string) (directory : list Location)
           (found : Location) : Prop :=
  exists before after,
    directory = (before ++ found :: after)%list /\
    nameMatches q found /\
    forall l, In l before -> ~ nameMatches q l.


(** The events that end the synchroniser's subscription to the map [m]:
    the unmount, or a render with another map or none. *)
Definition tearsDown (m : nat) (e : Lifecycle) : Prop :=
  e = Unmount \/ exists other, e = Render other /\ other <> Some m.

Definition isMoved (e : Lifecycle) : Prop :=
  match e with
  | Moved _ _ _ _ => True
  | _ => False
  end.

Definition isMovedOn (m : nat) (e : Lifecycle) : Prop :=
  match e with
  | Moved m' _ _ _ => m' = m
  | _ => False
  end.

(** *** Sample data *)

Definition newDelhi : Location :=
  mkLocation (Some "New Delhi") (143 # 5) (386 # 5) (Num (ofZ 180)) "Unhealthy".

Definition delhiHeights : Location :=
  mkLocation (Some "Delhi Heights") (57 # 2) (771 # 10) (Num (ofZ 95)) "Moderate".

Definition delhiSearch (map : option nat) : Component :=
  mkComponent [newDelhi; delhiHeights] map false " Delhi" true [].

Definition origin : Leaflet.LatLng := Leaflet.mkLatLng 0 0.

Definition somewhere : Leaflet.LatLng := Leaflet.mkLatLng (143 # 5) (386 # 5).

(** A primary map (instance 1) at zoom 6 and a mini map (instance 2),
    neither with listeners or controls. *)
Definition twoMaps : World :=
  mkWorld (<[1%nat := Leaflet.mkMap somewhere 6 [] []]>
             (<[2%nat := Leaflet.mkMap origin 3 [] []]> ∅))
          None 3 (Some 2%nat) [] 0.

(** Two primary map instances, 1 and 3, without listeners or controls,
    and no mini map yet. *)
Definition twoPrimaries : World :=
  mkWorld (<[1%nat := Leaflet.mkMap somewhere 6 [] []]>
             (<[3%nat := Leaflet.mkMap origin 6 [] []]> ∅))
          None 3 None [] 0.

(** The legend controls on the map instance [j]. *)
Definition legendsOn (w : World) (j : nat) : option (list nat) :=
  Leaflet.controls <$> leaflet w !! j.

End Wording.

(** ** The information panel ([AQInfoPanel.jsx]) *)

Module AQInfoPanel.
Import JS Classifier.

(** [getAqiColor] *)
Definition getAqiColor (aqi : Value) : string :=
  if le aqi (ofZ 50) then "bg-green-400 text-black"
  else if le aqi (ofZ 100) then "bg-yellow-400 text-black"
  else if le aqi (ofZ 150) then "bg-orange-400 text-white"
  else if le aqi (ofZ 200) then "bg-red-500 text-white"
  else if le aqi (ofZ 300) then "bg-purple-600 text-white"
  else "bg-gray-700 text-white".

(** The band each return of [getAqiColor] is commented with. *)
Definition classBands : list (string * SeverityBand) :=
  [ ("bg-green-400 text-black", Good);
    ("bg-yellow-400 text-black", Moderate);
    ("bg-orange-400 text-white", SensitiveUnhealthy);
    ("bg-red-500 text-white", Unhealthy);
    ("bg-purple-600 text-white", VeryUnhealthy);
    ("bg-gray-700 text-white", Hazardous) ].

Fixpoint bandOfClass' (rows : list (string * SeverityBand)) (cls : string)
  : option SeverityBand :=
  match rows with
  | [] => None
  | (c, b) :: rows' => if String.eqb c cls then Some b else bandOfClass' rows' cls
  end.

Definition bandOfClass : string -> option SeverityBand := bandOfClass' classBands.

(** [getAqiColor(location?.aqi ?? 40)] *)
Definition aqiClass (aqi : Value) : string :=
  getAqiColor (coalesce aqi (Num (ofZ 40))).

(** [location?.aqi ?? "N/A"] *)
Definition aqiText (aqi : Value) : Value := coalesce aqi (Str "N/A").

Record Forecast : Type := mkForecast { date : Value; aqi : Value }.

Record ForecastRow : Type := mkRow {
  key : nat;
  rowDate : Value;
  rowClass : string;
  rowAqi : Value
}.

Definition forecastRow (i : nat) (f : Forecast) : ForecastRow :=
  mkRow i (date f) (getAqiColor (aqi f)) (aqi f).

(** The daily forecast: [None] is the "No forecast data" line, otherwise
    a row for each of [forecast.slice(0, 5)]. *)
Definition forecastRows (forecast : list Forecast) : option (list ForecastRow) :=
  match forecast with
  | [] => None
  | _ => Some (AQMapSection.mapIndexed forecastRow 0 (firstn 5 forecast))
  end.

End AQInfoPanel.

(** ** The city map ([AQMap.jsx]) *)

Module AQMap.
Import JS.

Record City : Type := mkCity { name : Value; lat : Value; lon : Value }.

Record CityMap : Type := mkCityMap {
  center : Value * Value;
  zoom : Z;
  markerPosition : Value * Value;
  popup : Value
}.

(** [AQMap]: [None] is the [null] the component returns. *)
Definition AQMap (city : option City) : option CityMap :=
  match city with
  | None => None
  | Some c =>
      if negb (ToBoolean (lat c)) || negb (ToBoolean (lon c)) then None
      else Some (mkCityMap (lat c, lon c) 10 (lat c, lon c) (name c))
  end.

End AQMap.

(** ** The alert banner ([AQAlert.jsx]) *)

Module AQAlert.
Import JS.

Record Alert : Type := mkAlert { level : string; message : string }.

Definition colorMap : list (string * string) :=
  [ ("GOOD", "bg-green-100 border-green-500 text-green-800");
    ("MODERATE", "bg-yellow-100 border-yellow-500 text-yellow-800");
    ("UNHEALTHY", "bg-red-100 border-red-500 text-red-800");
    ("VERY_UNHEALTHY", "bg-purple-100 border-purple-500 text-purple-800");
    ("HAZARDOUS", "bg-black border-black text-white") ].

(** The property names every object literal inherits from
    [Object.prototype]. *)
Definition objectPrototype : list string :=
  [ "constructor"; "hasOwnProperty"; "isPrototypeOf"; "propertyIsEnumerable";
    "toLocaleString"; "toString"; "valueOf"; "__proto__";
    "__defineGetter__"; "__defineSetter__";
    "__lookupGetter__"; "__lookupSetter__" ].

(** What [object[key]] finds: an own string property, a member inherited
    from the prototype (a function or object, hence truthy), or nothing. *)
Inductive Member : Type :=
| Own (value : string)
| Inherited (name : string)
| Absent.

Fixpoint ownProperty (o : list (string * string)) (key : string) : option string :=
  match o with
  | [] => None
  | (k, v) :: o' => if String.eqb k key then Some v else ownProperty o' key
  end.

Definition get (o : list (string * string)) (key : string) : Member :=
  match ownProperty o key with
  | Some v => Own v
  | None => if existsb (String.eqb key) objectPrototype then Inherited key else Absent
  end.

(** [colorMap[alert.level] || "bg-gray-100"] *)
Definition levelClass (a : Alert) : Member :=
  match get colorMap (level a) with
  | Own v => if notString v then Own "bg-gray-100" else Own v
  | Inherited n => Inherited n
  | Absent => Own "bg-gray-100"
  end.

(** The banner: nothing without an alert, else the class of its level and
    its message. *)
Definition render (alert : option Alert) : option (Member * string) :=
  match alert with
  | None => None
  | Some a => Some (levelClass a, message a)
  end.

(** The component: the alert state, the live intervals of the page, the
    next interval id, the [fetchAlerts] requests sent so far, and the
    interval id in the cleanup React keeps while mounted. *)
Record State : Type := mkState {
  alert : option Alert;
  intervals : list nat;
  nextInterval : nat;
  requests : nat;
  kept : option nat
}.

Inductive Event : Type :=
| Mount
| Unmount
| Tick (id : nat)
| Response (resAlert : option Alert).

(** The effect: one request at once, one interval, and the cleanup that
    clears it. *)
Definition effect (s : State) : State :=
  mkState (alert s) (intervals s ++ [nextInterval s]) (S (nextInterval s))
          (S (requests s)) (Some (nextInterval s)).

Definition clearInterval (id : nat) (s : State) : State :=
  mkState (alert s) (List.filter (fun i => negb (Nat.eqb i id)) (intervals s))
          (nextInterval s) (requests s) (kept s).

(** Mounting runs the effect; unmounting runs the kept cleanup; a live
    interval that fires sends a request; a response stores [res.alert]. *)
Definition step (s : State) (e : Event) : State :=
  match e with
  | Mount =>
      match kept s with
      | None => effect s
      | Some _ => s
      end
  | Unmount =>
      match kept s with
      | Some id =>
          let s := clearInterval id s in
          mkState (alert s) (intervals s) (nextInterval s) (requests s) None
      | None => s
      end
  | Tick id =>
      if existsb (Nat.eqb id) (intervals s)
      then mkState (alert s) (intervals s) (nextInterval s) (S (requests s)) (kept s)
      else s
  | Response a =>
      mkState a (intervals s) (nextInterval s) (requests s) (kept s)
  end.

Definition initial : State := mkState None [] 0 0 None.

Definition run (es : list Event) : State := fold_left step es initial.

End AQAlert.

(** ** More vocabulary *)

Module Phrases.
Import JS AQMapSection.

(** Nothing but white space. *)
Fixpoint blank (s : string) : bool :=
  match s with
  | EmptyString => true
  | String c r => isWhiteSpace c && blank r
  end.

Definition withSearch (q : string) (c : Component) : Component :=
  mkComponent (locations c) (map c) (loading c) q (L c) (console c).

(** [n] rounds of mounting with [map], letting the import resolve, and
    unmounting. *)
Fixpoint remounts (n : nat) (m : nat) : list Lifecycle :=
  match n with
  | O => []
  | S n' => Render (Some m) :: Settle :: Unmount :: remounts n' m
  end.

(** The world of a freshly mounted map section: no Leaflet instance, the
    mini-map state at its initial values, an empty ref. *)
Definition freshWorld : World := mkWorld ∅ None 3 None [] 0.

(** The subscription discipline: a map has no listeners of the
    component, unless it is the map of the cleanup React keeps, which has
    that cleanup's [setCenter] for [move] and [zoomend] and nothing else. *)
Definition oneSubscription (s : Instance) : Prop :=
  (forall j ls,
      listenersAt (world s) j = Some ls ->
      ls = [] \/
      exists f, kept s = Some (OffMoveZoomend j f) /\
                ls = [Leaflet.mkListener "move" f; Leaflet.mkListener "zoomend" f]) /\
  (forall k, kept s <> Some (RemoveLegend k)).

End Phrases.

Import JS Classifier AQMapSection Wording Phrases.

(** * Properties *)

(** ** The classifier *)

Section ClassifierFacts.

Lemma le_Fin (q : Q) (k : Z) : le (Num (Fin q)) (ofZ k) = Qle_bool q (inject_Z k).
Proof.
  unfold le, ofZ; simpl. destruct (Qle_bool q (inject_Z k)); reflexivity.
Qed.

Lemma le_ofZ (z k : Z) : le (Num (ofZ z)) (ofZ k) = (z <=? k).
Proof.
  unfold ofZ at 1. rewrite le_Fin. unfold Qle_bool; simpl.
  now rewrite !Z.mul_1_r.
Qed.

Lemma le_NaN (v : Value) (k : Number) : ToNumber v = NaN -> le v k = false.
Proof.
  unfold le. intros ->. destruct k; reflexivity.
Qed.

(** A smaller number passes every threshold a larger one passes. *)
Lemma le_monotone (n1 n2 : Number) (k : Z) :
  lessThan n1 n2 = Some true ->
  le (Num n2) (ofZ k) = true -> le (Num n1) (ofZ k) = true.
Proof.
  destruct n1 as [| |p|], n2 as [| |q|]; simpl; try discriminate; auto.
  - intros Hlt. rewrite !le_Fin. intros Hq.
    injection Hlt as Hlt. apply negb_true_iff in Hlt.
    apply Qle_bool_iff in Hq. apply Qle_bool_iff.
    apply Qlt_le_weak. apply Qlt_le_trans with q; [|exact Hq].
    apply Qnot_le_lt. intros H. apply Qle_bool_iff in H. congruence.
Qed.

Lemma getColor_in_legend (v : Value) :
  In (getColor v) (List.map fst legendEntries).
Proof.
  unfold getColor.
  repeat match goal with |- context [if ?b then _ else _] => destruct b end;
    simpl; tauto.
Qed.

End ClassifierFacts.

(** C2. For every integer AQI the classifier answers green exactly up to
    50, yellow exactly from 51 to 100, orange from 101 to 150, red from
    151 to 200, purple from 201 to 300 and maroon above 300; being a
    function into the six legend colours, it is total and deterministic. *)
Theorem getColor_bands (aqi : Z) :
  let color := getColor (Num (ofZ aqi)) in
  (color = "green" <-> aqi <= 50) /\
  (color = "yellow" <-> 50 < aqi <= 100) /\
  (color = "orange" <-> 100 < aqi <= 150) /\
  (color = "red" <-> 150 < aqi <= 200) /\
  (color = "purple" <-> 200 < aqi <= 300) /\
  (color = "maroon" <-> 300 < aqi) /\
  In color ["green"; "yellow"; "orange"; "red"; "purple"; "maroon"].
Proof.
  cbv zeta. split_and!; [..| apply (getColor_in_legend (Num (ofZ aqi)))];
    unfold getColor; rewrite !le_ofZ;
    destruct (Z.leb_spec aqi 50), (Z.leb_spec aqi 100), (Z.leb_spec aqi 150),
      (Z.leb_spec aqi 200), (Z.leb_spec aqi 300);
    split; intros Hcolor; try lia; try discriminate Hcolor; reflexivity.
Qed.

(** C3. The classifier is monotonic: when one number is less than
    another, the band of the first is not more severe than the band of the
    second, in the order Good < Moderate < SensitiveUnhealthy < Unhealthy
    < VeryUnhealthy < Hazardous. *)
Theorem getColor_monotone (aqi1 aqi2 : Number) :
  lessThan aqi1 aqi2 = Some true ->
  exists band1 band2,
    bandOfColor (getColor (Num aqi1)) = Some band1 /\
    bandOfColor (getColor (Num aqi2)) = Some band2 /\
    (severity band1 <= severity band2)%nat.
Proof.
  intros Hlt.
  pose proof (le_monotone _ _ 50 Hlt) as H50.
  pose proof (le_monotone _ _ 100 Hlt) as H100.
  pose proof (le_monotone _ _ 150 Hlt) as H150.
  pose proof (le_monotone _ _ 200 Hlt) as H200.
  pose proof (le_monotone _ _ 300 Hlt) as H300.
  unfold getColor.
  destruct (le (Num aqi2) (ofZ 50));
    [rewrite (H50 eq_refl); do 2 eexists; repeat split; simpl; lia|clear H50].
  destruct (le (Num aqi2) (ofZ 100));
    [rewrite (H100 eq_refl); destruct (le (Num aqi1) (ofZ 50));
     do 2 eexists; repeat split; simpl; lia|clear H100].
  destruct (le (Num aqi2) (ofZ 150));
    [rewrite (H150 eq_refl);
     destruct (le (Num aqi1) (ofZ 50)), (le (Num aqi1) (ofZ 100));
     do 2 eexists; repeat split; simpl; lia|clear H150].
  destruct (le (Num aqi2) (ofZ 200));
    [rewrite (H200 eq_refl);
     destruct (le (Num aqi1) (ofZ 50)), (le (Num aqi1) (ofZ 100)),
       (le (Num aqi1) (ofZ 150));
     do 2 eexists; repeat split; simpl; lia|clear H200].
  destruct (le (Num aqi2) (ofZ 300));
    [rewrite (H300 eq_refl)|clear H300];
    destruct (le (Num aqi1) (ofZ 50)), (le (Num aqi1) (ofZ 100)),
      (le (Num aqi1) (ofZ 150)), (le (Num aqi1) (ofZ 200));
    try destruct (le (Num aqi1) (ofZ 300));
    do 2 eexists; repeat split; simpl; lia.
Qed.

Lemma getColor_monotone_witness :
  exists band1 band2,
    bandOfColor (getColor (Num (ofZ 40))) = Some band1 /\
    bandOfColor (getColor (Num (ofZ 120))) = Some band2 /\
    (severity band1 <= severity band2)%nat.
Proof.
  apply (getColor_monotone (ofZ 40) (ofZ 120)). reflexivity.
Defined.

(** C4, as the specification words it, fails: [null] and the empty string
    are absent or non-numeric, and both are coloured green. *)
Lemma absent_aqi_green :
  absentOrNonNumeric Null /\ getColor Null = "green" /\
  absentOrNonNumeric (Str "") /\ getColor (Str "") = "green".
Proof.
  repeat split. left; reflexivity.
Qed.

(** C4, amended. [undefined], and every string that converts to [NaN],
    is coloured maroon; [null] and the strings that are empty once trimmed
    convert to 0 and are coloured green; for every primitive value the
    classifier returns one of the six colours. *)
Theorem getColor_fallback :
  getColor Undefined = "maroon" /\
  (forall s, StringToNumber s = NaN -> getColor (Str s) = "maroon") /\
  (forall v, ToNumber v = NaN -> getColor v = "maroon") /\
  getColor Null = "green" /\
  (forall s, trim s = "" -> getColor (Str s) = "green") /\
  (forall v, In (getColor v) ["green"; "yellow"; "orange"; "red"; "purple"; "maroon"]).
Proof.
  assert (Hnan : forall v, ToNumber v = NaN -> getColor v = "maroon").
  { intros v Hv. unfold getColor. now rewrite !le_NaN. }
  split_and!; auto.
  - intros s Hs. unfold getColor, le. simpl. unfold StringToNumber.
    rewrite Hs. reflexivity.
  - apply getColor_in_legend.
Qed.

Lemma getColor_fallback_witness : getColor (Str "n/a") = "maroon".
Proof.
  apply (proj1 (proj2 getColor_fallback) "n/a"). reflexivity.
Defined.

(** ** The search navigator *)

Section SearchFacts.

Lemma prefix_spec (q s : string) :
  String.prefix q s = true <-> exists b : string, s = (q ++ b)%string.
Proof.
  revert s. induction q as [|a q IH]; intros s.
  - split; [intros _; now exists s | now destruct s].
  - destruct s as [|b s]; simpl.
    + split; [discriminate | intros [t Ht]; discriminate Ht].
    + destruct (ascii_dec a b) as [->|Hab].
      * rewrite IH. split; intros [t Ht]; exists t.
        -- now rewrite Ht.
        -- now injection Ht.
      * split; [discriminate | intros [t Ht]; injection Ht as <- _; congruence].
Qed.

Lemma includes_unfold (s q : string) :
  includes s q
  = if String.prefix q s then true
    else match s with
         | EmptyString => false
         | String _ r => includes r q
         end.
Proof. now destruct s. Qed.

Lemma includes_spec (s q : string) : includes s q = true <-> contains s q.
Proof.
  unfold contains. induction s as [|c s IH]; rewrite includes_unfold.
  - destruct (String.prefix q "") eqn:Hp.
    + apply prefix_spec in Hp as [b Hb]. split; [intros _ | reflexivity].
      exists "", b. exact Hb.
    + split; [discriminate|]. intros (a & b & Hab).
      destruct a; [|discriminate Hab].
      assert (String.prefix q "" = true) by (apply prefix_spec; now exists b).
      congruence.
  - destruct (String.prefix q (String c s)) eqn:Hp.
    + apply prefix_spec in Hp as [b Hb]. split; [intros _ | reflexivity].
      exists "", b. exact Hb.
    + rewrite IH. split.
      * intros (a & b & Hab). exists (String c a), b. simpl. now rewrite Hab.
      * intros (a & b & Hab). destruct a as [|c' a].
        -- assert (String.prefix q (String c s) = true)
             by (apply prefix_spec; now exists b).
           congruence.
        -- exists a, b. simpl in Hab. now injection Hab.
Qed.

Lemma find_first {A : Type} (p : A -> bool) (l : list A) (x : A) :
  List.find p l = Some x <->
  exists before after,
    l = (before ++ x :: after)%list /\ p x = true /\
    forall y, In y before -> p y = false.
Proof.
  induction l as [|a l IH]; simpl.
  - split; [discriminate|]. intros (b & r & Hl & _). now destruct b.
  - destruct (p a) eqn:Hpa.
    + split.
      * intros [= ->]. exists [], l. simpl. tauto.
      * intros ([|b bs] & r & Hl & Hx & Hb); simpl in Hl.
        -- congruence.
        -- injection Hl as -> _. specialize (Hb b (or_introl eq_refl)).
           congruence.
    + rewrite IH. split.
      * intros (bs & r & -> & Hx & Hb). exists (a :: bs), r.
        repeat split; auto. intros y [<-|Hy]; auto.
      * intros ([|b bs] & r & Hl & Hx & Hb); simpl in Hl.
        -- congruence.
        -- injection Hl as -> ->. exists bs, r. repeat split; auto.
           intros y Hy. apply Hb. now right.
Qed.

Lemma strOr_empty (s : string) : strOr s "" = s.
Proof. now destruct s. Qed.

Lemma notString_false (s : string) : s <> "" -> notString s = false.
Proof. now destruct s. Qed.

Lemma find_firstMatch (q : string) (ls : list Location) (f : Location) :
  firstMatch q ls f ->
  List.find (fun l => includes (toLowerCase (nameOr l)) q) ls = Some f.
Proof.
  intros (bs & r & Hl & Hf & Hb). apply find_first. exists bs, r.
  repeat split; auto.
  - now apply includes_spec.
  - intros y Hy. destruct (includes _ q) eqn:Hi; [|reflexivity].
    apply includes_spec in Hi. now destruct (Hb y Hy).
Qed.

End SearchFacts.

(** C5. A query that is empty once trimmed does nothing. Otherwise, with
    a primary map, the search takes the first location in directory order
    whose lower-cased name contains the trimmed, lower-cased query, flies
    the map to its coordinates at zoom 8 with animation, and hands that
    location to the host's selection callback; a later, equally matching
    entry is never chosen. *)
Theorem handleSearch_first_match (onSelect : option nat) (c : Component) :
  (trim (search c) = "" -> handleSearch onSelect c = []) /\
  (trim (search c) <> "" ->
   forall m found,
     map c = Some m ->
     firstMatch (toLowerCase (trim (search c))) (locations c) found ->
     handleSearch onSelect c
     = FlyTo m (lat found, lon found) 8 true :: emit onSelect found /\
     forall callback, onSelect = Some callback ->
       handleSearch onSelect c
       = [FlyTo m (lat found, lon found) 8 true; OnSelect callback found]).
Proof.
  unfold handleSearch. rewrite strOr_empty. split.
  - intros ->. reflexivity.
  - intros Hq m found Hm Hfound.
    rewrite (notString_false _ Hq), (find_firstMatch _ _ _ Hfound), Hm.
    split; [reflexivity|]. now intros callback ->.
Qed.

(** With "New Delhi" before "Delhi Heights", the query " Delhi" selects
    "New Delhi". *)
Lemma handleSearch_first_match_witness :
  handleSearch (Some 7%nat) (delhiSearch (Some 1%nat))
  = [FlyTo 1 (143 # 5, 386 # 5) 8 true; OnSelect 7 newDelhi].
Proof.
  refine (proj2 (proj2 (handleSearch_first_match (Some 7%nat)
                          (delhiSearch (Some 1%nat))) _
                   1%nat newDelhi eq_refl _) 7%nat eq_refl).
  - discriminate.
  - exists [], [delhiHeights]. split; [reflexivity|]. split.
    + exists "new ", "". reflexivity.
    + intros l [].
Defined.

(** C10. While the primary map handle is still null, a non-empty query
    that matches a location makes no call at all: no flight and no
    selection callback, and nothing is kept for later. *)
Theorem handleSearch_without_map (onSelect : option nat) (c : Component) :
  map c = None ->
  trim (search c) <> "" ->
  (exists found, firstMatch (toLowerCase (trim (search c))) (locations c) found) ->
  handleSearch onSelect c = [].
Proof.
  intros Hm Hq [found Hfound]. unfold handleSearch. rewrite strOr_empty.
  rewrite (notString_false _ Hq), (find_firstMatch _ _ _ Hfound), Hm.
  reflexivity.
Qed.

Lemma handleSearch_without_map_witness :
  handleSearch (Some 7%nat) (delhiSearch None) = [].
Proof.
  apply handleSearch_without_map.
  - reflexivity.
  - discriminate.
  - exists newDelhi, [], [delhiHeights]. split; [reflexivity|]. split.
    + exists "new ", "". reflexivity.
    + intros l [].
Defined.

(** ** The location load and the marker layer *)

(** C9, as the specification words it, fails: before the request has
    settled the directory is empty and the component renders its loading
    placeholder, not the "no data" one. *)
Lemma empty_directory_while_loading :
  locations initial = [] /\
  render initial = LoadingMap /\
  render initial <> NoDataAvailable.
Proof.
  repeat split. discriminate.
Qed.

(** C9, amended. With an empty directory no marker is constructed; once
    the load has settled the component renders "No data available.", and
    before that "Loading map...". A failed request, and a response with
    no body to read, are logged to the console, leave the directory as it
    was, clear the loading flag and settle the chain fulfilled, so that
    nothing is thrown and the "no data" state is rendered. *)
Theorem empty_directory_renders_no_data (c : Component) :
  locations c = [] ->
  markersOf (render c) = [] /\
  (loading c = false -> render c = NoDataAvailable) /\
  (loading c = true -> render c = LoadingMap) /\
  (forall e,
      loadEffect (Rejected e) c
      = (Fulfilled tt, setLoading false (consoleError e c)) /\
      render (snd (loadEffect (Rejected e) c)) = NoDataAvailable) /\
  (loadEffect (Fulfilled Nullish) c
   = (Fulfilled tt, setLoading false (consoleError TypeError c)) /\
   render (snd (loadEffect (Fulfilled Nullish) c)) = NoDataAvailable) /\
  render (snd (loadEffect (Fulfilled (Object None)) c)) = NoDataAvailable /\
  render (snd (loadEffect (Fulfilled (Object (Some []))) c)) = NoDataAvailable.
Proof.
  intros Hempty. unfold render, loadEffect; simpl. rewrite Hempty.
  split_and!; try reflexivity.
  - now destruct (loading c).
  - now intros ->.
  - now intros ->.
  - intros e. split; reflexivity.
Qed.

Lemma empty_directory_renders_no_data_witness :
  render (snd (loadEffect (Rejected (NetworkError "Network Error")) initial))
  = NoDataAvailable.
Proof.
  apply (empty_directory_renders_no_data initial eq_refl).
Defined.

(** ** The viewport synchroniser *)

Section SyncFacts.

Lemma max_min_clamp (x : Z) : Z.max 1 (Z.min 7 x) = clamp x 1 7.
Proof.
  unfold clamp. destruct (Z.ltb_spec x 1), (Z.ltb_spec 7 x); lia.
Qed.

Lemma lookup_onMap (m j : nat) (f : Leaflet.MapObj -> Leaflet.MapObj) (w : World) :
  leaflet (onMap m f w) !! j
  = if decide (m = j) then f <$> leaflet w !! m else leaflet w !! j.
Proof. unfold onMap; simpl. apply lookup_alter. Qed.

Lemma listenersAt_onMap (m j : nat) (f : Leaflet.MapObj -> Leaflet.MapObj)
      (w : World) :
  (forall mo, Leaflet.listeners (f mo) = Leaflet.listeners mo) ->
  listenersAt (onMap m f w) j = listenersAt w j.
Proof.
  intros Hf. unfold listenersAt. rewrite lookup_onMap.
  case_decide as Hmj; [subst j|reflexivity].
  destruct (leaflet w !! m); simpl; [now rewrite Hf | reflexivity].
Qed.

Lemma setCenter_listeners (k j : nat) (w : World) :
  listenersAt (setCenter k w) j = listenersAt w j.
Proof.
  unfold setCenter. destruct (leaflet w !! k) as [pm|]; [|reflexivity].
  simpl. destruct (miniMapRef w) as [mini|]; [|reflexivity].
  now rewrite listenersAt_onMap.
Qed.

Lemma setCenter_miniMapRef (k : nat) (w : World) :
  miniMapRef (setCenter k w) = miniMapRef w.
Proof.
  unfold setCenter. destruct (leaflet w !! k) as [pm|]; [|reflexivity].
  simpl. destruct (miniMapRef w) eqn:Href; simpl; congruence.
Qed.

Lemma calls_listeners (fs : list Leaflet.Closure) (j : nat) (w : World) :
  listenersAt (fold_left (fun w f => call f w) fs w) j = listenersAt w j.
Proof.
  revert w. induction fs as [|f fs IH]; intros w; simpl; [reflexivity|].
  rewrite IH. apply setCenter_listeners.
Qed.

Lemma calls_miniMapRef (fs : list Leaflet.Closure) (w : World) :
  miniMapRef (fold_left (fun w f => call f w) fs w) = miniMapRef w.
Proof.
  revert w. induction fs as [|f fs IH]; intros w; simpl; [reflexivity|].
  rewrite IH. apply setCenter_miniMapRef.
Qed.

Lemma fire_listeners (m j : nat) (t : string) (w : World) :
  listenersAt (fire m t w) j = listenersAt w j.
Proof.
  unfold fire. destruct (leaflet w !! m); [apply calls_listeners|reflexivity].
Qed.

Lemma fire_miniMapRef (m : nat) (t : string) (w : World) :
  miniMapRef (fire m t w) = miniMapRef w.
Proof.
  unfold fire. destruct (leaflet w !! m); [apply calls_miniMapRef|reflexivity].
Qed.

(** On a map without listeners, firing calls nothing. *)
Lemma fire_nobody (m : nat) (t : string) (w : World) :
  listenersAt w m = Some [] -> fire m t w = w.
Proof.
  unfold listenersAt, fire. destruct (leaflet w !! m) as [mo|]; [|reflexivity].
  simpl. intros [= Hl]. unfold Leaflet.listening. now rewrite Hl.
Qed.

(** What one call of [setCenter] leaves as the overview viewport. *)
Lemma setCenter_overview (m : nat) (w : World) (pm : Leaflet.MapObj) :
  leaflet w !! m = Some pm ->
  overview (setCenter m w)
  = (Some (Leaflet.center pm), clamp (Leaflet.zoom pm - 2) 1 7,
     match miniMapRef w with
     | Some mini =>
         (fun _ => (Leaflet.center pm, clamp (Leaflet.zoom pm - 2) 1 7))
           <$> leaflet w !! mini
     | None => None
     end).
Proof.
  intros Hm. unfold setCenter, overview. rewrite Hm. simpl.
  rewrite max_min_clamp. destruct (miniMapRef w) as [mini|] eqn:Href; simpl.
  - rewrite Href. rewrite lookup_alter_eq.
    now destruct (leaflet w !! mini).
  - now rewrite Href.
Qed.

(** The world the effect leaves on a map nobody listens to yet. *)
Lemma syncEffect_registers (m : nat) (w : World) (pm : Leaflet.MapObj) :
  leaflet w !! m = Some pm ->
  Leaflet.listeners pm = [] ->
  let f := Leaflet.mkClosure (nextId w) m in
  snd (syncEffect (Some m) w) = Some (OffMoveZoomend m f) /\
  listenersAt (fst (syncEffect (Some m) w)) m
  = Some [Leaflet.mkListener "move" f; Leaflet.mkListener "zoomend" f] /\
  (forall j, j <> m ->
     listenersAt (fst (syncEffect (Some m) w)) j = listenersAt w j) /\
  miniMapRef (fst (syncEffect (Some m) w)) = miniMapRef w.
Proof.
  intros Hm Hl f. unfold syncEffect, allocate. cbn [fst snd].
  fold f. split; [reflexivity|]. split; [|split].
  - unfold listenersAt. rewrite !lookup_onMap. rewrite !decide_True by reflexivity.
    pose proof (setCenter_listeners m m
      (mkWorld (leaflet w) (miniCenter w) (miniZoom w) (miniMapRef w)
               (pending w) (S (nextId w)))) as Hs.
    unfold listenersAt in Hs. cbn [leaflet] in Hs. rewrite Hm in Hs.
    unfold call. cbn [Leaflet.env f].
    destruct (leaflet (setCenter m _) !! m) as [mo|]; [|discriminate Hs].
    simpl in Hs. injection Hs as Hs. rewrite Hl in Hs.
    simpl. unfold Leaflet.on at 2. rewrite Hs. simpl.
    unfold Leaflet.on. simpl. reflexivity.
  - intros j Hj. unfold listenersAt. rewrite !lookup_onMap.
    rewrite !decide_False by congruence.
    apply (setCenter_listeners m j).
  - simpl. unfold call. now rewrite setCenter_miniMapRef.
Qed.

Lemma syncEffect_elsewhere (m j : nat) (w : World) :
  j <> m -> listenersAt (fst (syncEffect (Some m) w)) j = listenersAt w j.
Proof.
  intros Hj. unfold syncEffect, allocate. cbn [fst].
  unfold listenersAt. rewrite !lookup_onMap.
  rewrite !decide_False by congruence.
  apply (setCenter_listeners m j).
Qed.

Lemma syncEffect_miniMapRef (o : option nat) (w : World) :
  miniMapRef (fst (syncEffect o w)) = miniMapRef w.
Proof.
  destruct o as [m|]; [|reflexivity].
  unfold syncEffect, allocate. cbn [fst]. simpl. unfold call.
  now rewrite setCenter_miniMapRef.
Qed.

(** Both registrations call [setCenter]; no other event type does. *)
Lemma fire_subscribed (m : nat) (t : string) (f : Leaflet.Closure) (w : World) :
  listenersAt w m
  = Some [Leaflet.mkListener "move" f; Leaflet.mkListener "zoomend" f] ->
  fire m t w
  = if String.eqb "move" t || String.eqb "zoomend" t then call f w else w.
Proof.
  unfold listenersAt, fire. destruct (leaflet w !! m) as [mo|]; [|discriminate].
  cbn [fmap option_fmap option_map]. intros [= Hl].
  unfold Leaflet.listening. rewrite Hl. cbn [List.filter Leaflet.evType].
  destruct (String.eqb_spec "move" t) as [<-|Hmove].
  - change (String.eqb "zoomend" "move") with false. reflexivity.
  - destruct (String.eqb_spec "zoomend" t) as [<-|Hzoom]; reflexivity.
Qed.

Lemma listenersAt_exists {A : Type} (x : A) (w1 w2 : World) (j : nat) :
  (listenersAt w1 j = None <-> listenersAt w2 j = None) ->
  (fun _ => x) <$> leaflet w1 !! j = (fun _ => x) <$> leaflet w2 !! j.
Proof.
  unfold listenersAt.
  destruct (leaflet w1 !! j), (leaflet w2 !! j); simpl; intros [H1 H2];
    try reflexivity.
  - discriminate (H2 eq_refl).
  - discriminate (H1 eq_refl).
Qed.

Lemma moveTo_listeners (m j : nat) (c : Leaflet.LatLng) (z : Z) (w : World) :
  listenersAt (moveTo m c z w) j = listenersAt w j.
Proof. unfold moveTo. now rewrite listenersAt_onMap. Qed.

Lemma moveTo_overview (m : nat) (c : Leaflet.LatLng) (z : Z) (w : World) :
  miniMapRef w <> Some m -> overview (moveTo m c z w) = overview w.
Proof.
  intros Href. unfold overview, moveTo. simpl.
  destruct (miniMapRef w) as [mini|]; [|reflexivity].
  rewrite lookup_alter_ne by congruence. reflexivity.
Qed.

Lemma sameListener_refl (t : string) (f : Leaflet.Closure) :
  Leaflet.sameListener t f (Leaflet.mkListener t f) = true.
Proof.
  unfold Leaflet.sameListener. cbn [Leaflet.evType Leaflet.fn].
  now rewrite String.eqb_refl, Nat.eqb_refl.
Qed.

(** The cleanup takes both registrations away again. *)
Lemma runCleanup_unregisters (m : nat) (f : Leaflet.Closure) (w : World) :
  listenersAt w m
  = Some [Leaflet.mkListener "move" f; Leaflet.mkListener "zoomend" f] ->
  listenersAt (runCleanup (Some (OffMoveZoomend m f)) w) m = Some [] /\
  miniMapRef (runCleanup (Some (OffMoveZoomend m f)) w) = miniMapRef w.
Proof.
  intros Hl. split; [|reflexivity].
  unfold runCleanup, listenersAt in *. rewrite !lookup_onMap.
  rewrite !decide_True by reflexivity.
  destruct (leaflet w !! m) as [mo|]; [|discriminate Hl].
  simpl in *. injection Hl as Hl. rewrite Hl. simpl.
  rewrite sameListener_refl. cbn [Leaflet.removeListener].
  rewrite sameListener_refl. reflexivity.
Qed.

(** Map movement alone changes neither what React keeps nor any
    registration. *)
Lemma moved_preserves (effect : Effect) (es : list Lifecycle) (s : Instance) :
  Forall isMoved es ->
  kept (fold_left (step effect) es s) = kept s /\
  deps (fold_left (step effect) es s) = deps s /\
  miniMapRef (world (fold_left (step effect) es s)) = miniMapRef (world s) /\
  forall j, listenersAt (world (fold_left (step effect) es s)) j
            = listenersAt (world s) j.
Proof.
  intros Hes. revert s. induction Hes as [|e es He _ IH]; intros s; simpl.
  - auto.
  - destruct e as [| | |m c z t]; try contradiction. simpl.
    destruct (IH (mkInstance (fire m t (moveTo m c z (world s))) (kept s) (deps s)))
      as (Hk & Hd & Hr & Hl).
    simpl in *. split_and!; auto.
    + rewrite Hr, fire_miniMapRef. reflexivity.
    + intros j. rewrite Hl, fire_listeners, moveTo_listeners. reflexivity.
Qed.

(** On a map without listeners, movement leaves the overview alone. *)
Lemma moved_unobserved (effect : Effect) (m : nat) (es : list Lifecycle)
      (s : Instance) :
  Forall (isMovedOn m) es ->
  listenersAt (world s) m = Some [] ->
  miniMapRef (world s) <> Some m ->
  overview (world (fold_left (step effect) es s)) = overview (world s).
Proof.
  intros Hes. revert s. induction Hes as [|e es He _ IH]; intros s Hl Href; simpl.
  - reflexivity.
  - destruct e as [| | |m' c z t]; try contradiction. simpl in He. subst m'.
    simpl.
    assert (Hfire : fire m t (moveTo m c z (world s)) = moveTo m c z (world s)).
    { apply fire_nobody. now rewrite moveTo_listeners. }
    rewrite Hfire, IH; simpl.
    + now apply moveTo_overview.
    + now rewrite moveTo_listeners.
    + exact Href.
Qed.

End SyncFacts.

(** C1. Every call of [setCenter] leaves the overview with the centre of
    the primary map and with the zoom [clamp (zoom - 2) 1 7], in the
    component state and, when the mini map exists, in its Leaflet view;
    primary zooms 6, 2 and 10 give overview zooms 4, 1 and 7. Once the
    effect has subscribed, every [move] and [zoomend] the primary map
    fires on arriving at a view recomputes the overview from that view. *)
Theorem overview_follows_primary (w : World) (m : nat) (pm : Leaflet.MapObj) :
  leaflet w !! m = Some pm ->
  overview (setCenter m w)
  = (Some (Leaflet.center pm), clamp (Leaflet.zoom pm - 2) 1 7,
     match miniMapRef w with
     | Some mini =>
         (fun _ => (Leaflet.center pm, clamp (Leaflet.zoom pm - 2) 1 7))
           <$> leaflet w !! mini
     | None => None
     end) /\
  (Leaflet.zoom pm = 6 -> miniZoom (setCenter m w) = 4) /\
  (Leaflet.zoom pm = 2 -> miniZoom (setCenter m w) = 1) /\
  (Leaflet.zoom pm = 10 -> miniZoom (setCenter m w) = 7) /\
  (Leaflet.listeners pm = [] ->
   forall c z t,
     t = "move" \/ t = "zoomend" ->
     overview (world (run syncEffect w [Render (Some m); Moved m c z t]))
     = (Some c, clamp (z - 2) 1 7,
        match miniMapRef w with
        | Some mini => (fun _ => (c, clamp (z - 2) 1 7)) <$> leaflet w !! mini
        | None => None
        end)).
Proof.
  intros Hm. pose proof (setCenter_overview m w pm Hm) as Hov.
  split; [exact Hov|].
  assert (Hz : miniZoom (setCenter m w) = clamp (Leaflet.zoom pm - 2) 1 7)
    by (unfold overview in Hov; congruence).
  split_and!; try (intros Hzoom; rewrite Hz, Hzoom; reflexivity).
  intros Hl c z t Ht.
  destruct (syncEffect_registers m w pm Hm Hl) as (Hk & Hreg & Helse & Href).
  unfold run. cbn [fold_left step deps kept world runCleanup].
  rewrite decide_False by discriminate.
  destruct (syncEffect (Some m) w) as [w1 k] eqn:Heff.
  cbn [fst snd world] in *.
  set (w2 := moveTo m c z w1).
  assert (Hreg2 : listenersAt w2 m
                  = Some [Leaflet.mkListener "move" (Leaflet.mkClosure (nextId w) m);
                          Leaflet.mkListener "zoomend" (Leaflet.mkClosure (nextId w) m)])
    by (unfold w2; now rewrite moveTo_listeners).
  rewrite (fire_subscribed m t _ w2 Hreg2).
  replace (String.eqb "move" t || String.eqb "zoomend" t) with true
    by (destruct Ht as [-> | ->]; reflexivity).
  unfold call. cbn [Leaflet.env].
  assert (Hm2 : exists mo, leaflet w2 !! m = Some (Leaflet.setView c z mo)).
  { unfold w2, moveTo. rewrite lookup_onMap, decide_True by reflexivity.
    unfold listenersAt in Hreg. destruct (leaflet w1 !! m) as [mo|];
      [now exists mo | discriminate Hreg]. }
  destruct Hm2 as [mo Hm2].
  rewrite (setCenter_overview m w2 _ Hm2). cbn [Leaflet.setView Leaflet.center Leaflet.zoom].
  assert (Href2 : miniMapRef w2 = miniMapRef w) by exact Href.
  rewrite Href2. destruct (miniMapRef w) as [mini|]; [|reflexivity].
  f_equal. apply listenersAt_exists.
  unfold w2. rewrite moveTo_listeners.
  destruct (decide (mini = m)) as [->|Hne].
  - rewrite Hreg. unfold listenersAt. rewrite Hm. split; discriminate.
  - now rewrite Helse.
Qed.

Lemma overview_follows_primary_witness :
  overview (setCenter 1 twoMaps) = (Some somewhere, 4, Some (somewhere, 4)) /\
  overview (world (run syncEffect twoMaps
                       [Render (Some 1%nat); Moved 1 origin 10 "zoomend"]))
  = (Some origin, 7, Some (origin, 7)).
Proof.
  pose proof (overview_follows_primary twoMaps 1
                (Leaflet.mkMap somewhere 6 [] []) eq_refl) as (H1 & _ & _ & _ & H2).
  split; [exact H1|].
  exact (H2 eq_refl origin 10 "zoomend" (or_intror eq_refl)).
Defined.







(** C7. Let the effect subscribe to a primary map, let the map move in
    any way, and let React then tear the effect down, by unmounting or by
    rendering with another map or none. The old map is left without
    listeners, and however it moves and whatever it fires afterwards, the
    overview viewport stays what it was at the teardown. On the other
    path through the effect, the one without a map, nothing is registered
    and there is nothing to undo. *)
Theorem teardown_unsubscribes (w : World) (m : nat) (pm : Leaflet.MapObj)
        (mid : list Lifecycle) (teardown : Lifecycle) (after : list Lifecycle) :
  leaflet w !! m = Some pm ->
  Leaflet.listeners pm = [] ->
  miniMapRef w <> Some m ->
  Forall isMoved mid ->
  tearsDown m teardown ->
  Forall (isMovedOn m) after ->
  let torn := run syncEffect w (Render (Some m) :: mid ++ [teardown]) in
  listenersAt (world torn) m = Some [] /\
  overview (world (fold_left (step syncEffect) after torn)) = overview (world torn) /\
  syncEffect None w = (w, None).
Proof.
  intros Hm Hl Href Hmid Htear Hafter torn.
  assert (Htorn : listenersAt (world torn) m = Some [] /\
                  miniMapRef (world torn) = miniMapRef w).
  { unfold torn, run. cbn [fold_left]. rewrite fold_left_app. cbn [fold_left].
    destruct (syncEffect_registers m w pm Hm Hl) as (Hk & Hreg & _ & Hr).
    set (mounted := step syncEffect (mkInstance w None None) (Render (Some m))).
    assert (Hmounted : mounted
                       = mkInstance (fst (syncEffect (Some m) w))
                                    (snd (syncEffect (Some m) w)) (Some (Some m))).
    { unfold mounted. cbn [step deps kept world runCleanup].
      rewrite decide_False by discriminate.
      now destruct (syncEffect (Some m) w). }
    destruct (moved_preserves syncEffect mid mounted Hmid)
      as (Hkept & Hdeps & Hmini & Hlist).
    set (moved := fold_left (step syncEffect) mid mounted) in *.
    rewrite Hmounted in Hkept, Hdeps, Hmini, Hlist. cbn [kept deps world] in *.
    rewrite Hk in Hkept. rewrite Hr in Hmini. rewrite <- Hlist in Hreg.
    destruct (runCleanup_unregisters m _ (world moved) Hreg) as (Hoff & Hoffref).
    destruct Htear as [-> | (other & -> & Hother)].
    - cbn [step world]. rewrite Hkept. split; [exact Hoff | congruence].
    - cbn [step]. rewrite Hdeps, decide_False by congruence. rewrite Hkept.
      destruct other as [m2|].
      + pose proof (syncEffect_elsewhere m2 m
                      (runCleanup (Some (OffMoveZoomend m
                         (Leaflet.mkClosure (nextId w) m))) (world moved))) as Helse.
        pose proof (syncEffect_miniMapRef (Some m2)
                      (runCleanup (Some (OffMoveZoomend m
                         (Leaflet.mkClosure (nextId w) m))) (world moved))) as Hr2.
        destruct (syncEffect (Some m2) _) as [w3 k3]. cbn [fst world] in *.
        split; [rewrite Helse by congruence; exact Hoff | congruence].
      + cbn [syncEffect world]. split; [exact Hoff | congruence]. }
  destruct Htorn as (Hnone & Hsame). split; [exact Hnone|].
  split; [|reflexivity].
  apply (moved_unobserved syncEffect m after torn Hafter Hnone). congruence.
Qed.

Lemma teardown_unsubscribes_witness :
  let torn := run syncEffect twoMaps
                  [Render (Some 1%nat); Moved 1 origin 5 "move"; Unmount] in
  listenersAt (world torn) 1 = Some [] /\
  overview (world (fold_left (step syncEffect)
                             [Moved 1 somewhere 9 "move";
                              Moved 1 somewhere 9 "zoomend"] torn))
  = overview (world torn) /\
  syncEffect None twoMaps = (twoMaps, None).
Proof.
  apply (teardown_unsubscribes twoMaps 1 (Leaflet.mkMap somewhere 6 [] [])
           [Moved 1 origin 5 "move"] Unmount
           [Moved 1 somewhere 9 "move"; Moved 1 somewhere 9 "zoomend"]).
  - reflexivity.
  - reflexivity.
  - discriminate.
  - repeat constructor.
  - left; reflexivity.
  - repeat constructor.
Defined.

(** ** The legend control *)

Lemma legendEffect_no_cleanup (map : option nat) (w : World) :
  snd (legendEffect map w) = None.
Proof. now destruct map. Qed.

(** React is never given a cleanup for the legend effect. *)
Lemma legend_keeps_no_cleanup (es : list Lifecycle) (s : Instance) :
  kept s = None -> kept (fold_left (step legendEffect) es s) = None.
Proof.
  revert s. induction es as [|e es IH]; intros s Hs; [exact Hs|].
  simpl. apply IH. destruct e as [o| | |m c z t]; simpl; auto.
  case_decide; [exact Hs|].
  pose proof (legendEffect_no_cleanup o (runCleanup (kept s) (world s))) as Hc.
  now destruct (legendEffect o (runCleanup (kept s) (world s))).
Qed.

(** C8 does not hold of the code. The function that removes the legend
    is returned from the [then] callback, not from the effect, so React
    keeps no cleanup and unmounting removes nothing: after attaching to
    instance 1, unmounting and attaching to instance 3, one legend is on
    each of the two maps; remounting against instance 1 itself leaves two
    legends on that one map. *)
Theorem legend_controls_accumulate :
  (forall es w, kept (run legendEffect w es) = None) /\
  (let s := run legendEffect twoPrimaries
                [Render (Some 1%nat); Settle; Unmount; Render (Some 3%nat); Settle] in
   legendsOn (world s) 1 = Some [0%nat] /\
   legendsOn (world s) 3 = Some [1%nat] /\
   List.length (activeLegends (world s)) = 2%nat) /\
  (let s := run legendEffect twoPrimaries
                [Render (Some 1%nat); Settle; Unmount; Render (Some 1%nat); Settle] in
   legendsOn (world s) 1 = Some [0%nat; 1%nat]) /\
  (let s := run legendEffect twoPrimaries [Render (Some 1%nat); Settle; Unmount] in
   legendsOn (world s) 1 = Some [0%nat]).
Proof.
  split; [intros es w; now apply legend_keeps_no_cleanup|].
  vm_compute. repeat split.
Qed.

(** * Further properties *)

(** ** Searching *)

Section TrimFacts.

Lemma trimStart_blank (w : string) : blank w = true -> trimStart w = "".
Proof.
  induction w as [|c w IH]; simpl; [reflexivity|].
  intros H. apply andb_true_iff in H as [Hc Hw]. rewrite Hc. now apply IH.
Qed.

Lemma trimEnd_blank (w : string) : blank w = true -> trimEnd w = "".
Proof.
  induction w as [|c w IH]; simpl; [reflexivity|].
  intros H. apply andb_true_iff in H as [Hc Hw]. now rewrite (IH Hw), Hc.
Qed.

Lemma trimStart_app (s w : string) :
  trimStart (s ++ w) = if blank s then trimStart w else (trimStart s ++ w)%string.
Proof.
  induction s as [|c s IH]; simpl; [reflexivity|].
  destruct (isWhiteSpace c); simpl; [exact IH | reflexivity].
Qed.

Lemma trimEnd_app_blank (s w : string) :
  blank w = true -> trimEnd (s ++ w) = trimEnd s.
Proof.
  intros Hw. induction s as [|c s IH]; simpl.
  - now apply trimEnd_blank.
  - now rewrite IH.
Qed.

(** White space around a string does not survive [trim]. *)
Lemma trim_padding (a s b : string) :
  blank a = true -> blank b = true -> trim (a ++ s ++ b) = trim s.
Proof.
  intros Ha Hb. unfold trim. rewrite trimStart_app, Ha, trimStart_app.
  destruct (blank s) eqn:Hs.
  - now rewrite (trimStart_blank b Hb), (trimStart_blank s Hs).
  - now apply trimEnd_app_blank.
Qed.

Lemma isWhiteSpace_lowerUnit (c : ascii) :
  isWhiteSpace (lowerUnit c) = isWhiteSpace c.
Proof. destruct c as [[] [] [] [] [] [] [] []]; reflexivity. Qed.

Lemma lowerUnit_idempotent (c : ascii) : lowerUnit (lowerUnit c) = lowerUnit c.
Proof. destruct c as [[] [] [] [] [] [] [] []]; reflexivity. Qed.

Lemma toLowerCase_idempotent (s : string) :
  toLowerCase (toLowerCase s) = toLowerCase s.
Proof.
  induction s as [|c s IH]; simpl; [reflexivity|].
  now rewrite lowerUnit_idempotent, IH.
Qed.

Lemma trimStart_toLowerCase (s : string) :
  trimStart (toLowerCase s) = toLowerCase (trimStart s).
Proof.
  induction s as [|c s IH]; simpl; [reflexivity|].
  rewrite isWhiteSpace_lowerUnit. now destruct (isWhiteSpace c).
Qed.

Lemma trimEnd_toLowerCase (s : string) :
  trimEnd (toLowerCase s) = toLowerCase (trimEnd s).
Proof.
  induction s as [|c s IH]; simpl; [reflexivity|].
  rewrite IH, isWhiteSpace_lowerUnit.
  destruct (trimEnd s); simpl; [now destruct (isWhiteSpace c) | reflexivity].
Qed.

Lemma trim_toLowerCase (s : string) : trim (toLowerCase s) = toLowerCase (trim s).
Proof. unfold trim. now rewrite trimStart_toLowerCase, trimEnd_toLowerCase. Qed.

Lemma notString_toLowerCase (s : string) : notString (toLowerCase s) = notString s.
Proof. now destruct s. Qed.

End TrimFacts.

(** X1. A query, not empty once trimmed, that no name in the directory
    contains makes no call: the map does not fly and the host is not
    notified, with or without a map. *)
Theorem handleSearch_miss (onSelect : option nat) (c : Component) :
  trim (search c) <> "" ->
  (forall l, In l (locations c) ->
             ~ nameMatches (toLowerCase (trim (search c))) l) ->
  handleSearch onSelect c = [].
Proof.
  intros Hq Hnone. unfold handleSearch. rewrite strOr_empty.
  rewrite (notString_false _ Hq).
  destruct (List.find _ (locations c)) as [found|] eqn:Hfind; [|reflexivity].
  apply List.find_some in Hfind as [Hin Hinc].
  apply includes_spec in Hinc. now destruct (Hnone found Hin).
Qed.

Lemma handleSearch_miss_witness :
  handleSearch (Some 7%nat) (withSearch "Utopia" (delhiSearch (Some 1%nat))) = [].
Proof.
  apply handleSearch_miss.
  - discriminate.
  - intros l Hl Hmatch. apply includes_spec in Hmatch.
    destruct Hl as [<- | [<- | []]]; vm_compute in Hmatch; discriminate Hmatch.
Defined.

(** X2. White space before and after the query is ignored: padding the
    query with white space gives the same calls, and a query of white
    space alone gives none. *)
Theorem handleSearch_ignores_padding (onSelect : option nat) (c : Component)
        (before after : string) :
  blank before = true ->
  blank after = true ->
  handleSearch onSelect (withSearch (before ++ search c ++ after) c)
  = handleSearch onSelect c /\
  handleSearch onSelect (withSearch before c) = [].
Proof.
  intros Ha Hb. unfold handleSearch, withSearch. cbn [search locations map].
  rewrite !strOr_empty, (trim_padding _ _ _ Ha Hb). split; [reflexivity|].
  unfold trim. now rewrite (trimStart_blank _ Ha).
Qed.

Lemma handleSearch_ignores_padding_witness :
  handleSearch (Some 7%nat)
    (withSearch (String (ascii_of_nat 9) "  Delhi " ) (delhiSearch (Some 1%nat)))
  = handleSearch (Some 7%nat) (delhiSearch (Some 1%nat)).
Proof.
  apply (handleSearch_ignores_padding (Some 7%nat) (delhiSearch (Some 1%nat))
           (String (ascii_of_nat 9) " ") " "); reflexivity.
Defined.

(** X3. The case of the query does not matter: lower-casing the query
    before searching gives the same calls. *)
Theorem handleSearch_ignores_case (onSelect : option nat) (c : Component) :
  handleSearch onSelect (withSearch (toLowerCase (search c)) c)
  = handleSearch onSelect c.
Proof.
  unfold handleSearch, withSearch. cbn [search locations map].
  rewrite !strOr_empty, trim_toLowerCase, notString_toLowerCase.
  now rewrite toLowerCase_idempotent.
Qed.

(** ** Markers and the load *)

Section MarkerFacts.

Lemma mapIndexed_length {A B : Type} (f : nat -> A -> B) (k : nat) (l : list A) :
  List.length (mapIndexed f k l) = List.length l.
Proof.
  revert k. induction l as [|x l IH]; intros k; simpl; [reflexivity|].
  now rewrite IH.
Qed.

Lemma mapIndexed_lookup {A B : Type} (f : nat -> A -> B) (k i : nat) (l : list A) :
  mapIndexed f k l !! i = f (k + i)%nat <$> l !! i.
Proof.
  revert k i. induction l as [|x l IH]; intros k i; simpl; [reflexivity|].
  destruct i as [|i]; simpl.
  - now rewrite Nat.add_0_r.
  - rewrite IH. now rewrite Nat.add_succ_r.
Qed.

End MarkerFacts.

(** X4. Once the load has settled there is exactly one marker per
    location, in directory order, provided the Leaflet module has
    arrived, and none before it has. The i-th marker has key i, sits at
    the coordinates of the i-th location, is coloured by [getColor] of its
    AQI, shows that AQI, and a click on it hands that location to the
    host's callback. *)
Theorem markers_per_location (onSelect : option nat) (c : Component) :
  loading c = false ->
  (L c = false -> markersOf (render c) = []) /\
  (L c = true ->
   List.length (markersOf (render c)) = List.length (locations c) /\
   forall i loc,
     locations c !! i = Some loc ->
     exists mk,
       markersOf (render c) !! i = Some mk /\
       key mk = i /\
       position mk = (lat loc, lon loc) /\
       iconBackground mk = getColor (aqi loc) /\
       iconText mk = aqi loc /\
       clickMarker onSelect mk = emit onSelect loc).
Proof.
  intros Hload. unfold render. rewrite Hload.
  destruct (locations c) as [|first rest] eqn:Hls; cbn [markersOf].
  - split; [reflexivity|]. intros _. split; [reflexivity|].
    intros i loc Hi. destruct i; discriminate Hi.
  - split; [now intros ->|]. intros ->. split.
    + apply mapIndexed_length.
    + intros i loc Hi. exists (marker i loc). split; [|now repeat split].
      rewrite mapIndexed_lookup, Hi. reflexivity.
Qed.

Lemma markers_per_location_witness :
  List.length (markersOf (render (delhiSearch (Some 1%nat)))) = 2%nat.
Proof.
  apply (proj2 (markers_per_location None (delhiSearch (Some 1%nat)) eq_refl) eq_refl).
Defined.

(** X5. Whatever the request brings, the load chain ends fulfilled with
    the loading flag cleared, so the component leaves "Loading map...".
    The directory is replaced only by a body that is an object (by its
    [locations], or by the empty list when it has none); a failed request
    and a null body leave the directory alone and add one line to the
    console, and nothing else does. The map handle, the query and the
    Leaflet module are untouched. *)
Theorem loadEffect_outcomes (response : Settled Body) (c : Component) :
  let c' := snd (loadEffect response c) in
  fst (loadEffect response c) = Fulfilled tt /\
  loading c' = false /\
  render c' <> LoadingMap /\
  map c' = map c /\ search c' = search c /\ L c' = L c /\
  locations c'
  = match response with
    | Fulfilled (Object (Some ls)) => ls
    | Fulfilled (Object None) => []
    | Fulfilled Nullish | Rejected _ => locations c
    end /\
  console c'
  = (console c ++ match response with
                  | Rejected e => [e]
                  | Fulfilled Nullish => [TypeError]
                  | Fulfilled (Object _) => []
                  end)%list.
Proof.
  assert (Hrender : forall c', loading c' = false -> render c' <> LoadingMap).
  { intros c' H. unfold render. rewrite H. now destruct (locations c'). }
  destruct response as [[|[ls|]]|e]; cbv zeta; split_and!;
    try (apply Hrender); try reflexivity;
    unfold loadEffect; simpl; now rewrite app_nil_r.
Qed.

(** ** More on the viewport synchroniser *)

Section OneWayFacts.

Lemma setCenter_elsewhere (m j : nat) (w : World) :
  miniMapRef w <> Some j -> leaflet (setCenter m w) !! j = leaflet w !! j.
Proof.
  intros Hj. unfold setCenter. destruct (leaflet w !! m) as [pm|]; [|reflexivity].
  simpl. destruct (miniMapRef w) as [mini|]; [|reflexivity].
  rewrite lookup_onMap, decide_False by congruence. reflexivity.
Qed.

Lemma calls_elsewhere (fs : list Leaflet.Closure) (j : nat) (w : World) :
  miniMapRef w <> Some j ->
  leaflet (fold_left (fun w f => call f w) fs w) !! j = leaflet w !! j.
Proof.
  revert w. induction fs as [|f fs IH]; intros w Hj; simpl; [reflexivity|].
  rewrite IH.
  - now apply setCenter_elsewhere.
  - unfold call. now rewrite setCenter_miniMapRef.
Qed.

Lemma clamp_range (x : Z) : 1 <= clamp x 1 7 <= 7.
Proof. unfold clamp. destruct (Z.ltb_spec x 1), (Z.ltb_spec 7 x); lia. Qed.

Lemma clamp_monotone (x y : Z) : x <= y -> clamp x 1 7 <= clamp y 1 7.
Proof.
  unfold clamp. intros Hxy.
  destruct (Z.ltb_spec x 1), (Z.ltb_spec 7 x), (Z.ltb_spec y 1), (Z.ltb_spec 7 y);
    lia.
Qed.

End OneWayFacts.

(** X6. The dependency runs one way only: [setCenter], and with it every
    event the component listens to, changes no Leaflet map other than the
    one [miniMapRef] points to. The primary map, being another instance,
    keeps its view, listeners and controls. *)
Theorem overview_never_feeds_back (w : World) (m j : nat) (t : string) :
  miniMapRef w <> Some j ->
  leaflet (setCenter m w) !! j = leaflet w !! j /\
  leaflet (fire m t w) !! j = leaflet w !! j.
Proof.
  intros Hj. split; [now apply setCenter_elsewhere|].
  unfold fire. destruct (leaflet w !! m) as [mo|] eqn:Hm; [|reflexivity].
  now apply calls_elsewhere.
Qed.

Lemma overview_never_feeds_back_witness :
  leaflet (setCenter 1 twoMaps) !! 1%nat = leaflet twoMaps !! 1%nat /\
  leaflet (fire 1 "move" twoMaps) !! 1%nat = leaflet twoMaps !! 1%nat.
Proof.
  apply (overview_never_feeds_back twoMaps 1 1 "move"). discriminate.
Defined.

(** X7. A second call of [setCenter] with the primary map where it was
    changes nothing: the world after two calls is the world after one. *)
Theorem setCenter_idempotent (w : World) (m : nat) :
  miniMapRef w <> Some m ->
  setCenter m (setCenter m w) = setCenter m w.
Proof.
  intros Hm. unfold setCenter at 1.
  rewrite (setCenter_elsewhere m m w Hm).
  destruct (leaflet w !! m) as [pm|] eqn:Hpm; [|reflexivity].
  cbn [miniMapRef setMiniZoom setMiniCenter]. rewrite setCenter_miniMapRef.
  unfold setCenter. rewrite Hpm.
  unfold onMap, withLeaflet, setMiniZoom, setMiniCenter; simpl.
  destruct (miniMapRef w) as [mini|] eqn:Href; simpl; rewrite ?Href;
    [|reflexivity].
  f_equal. rewrite alter_alter_eq. apply alter_ext. intros mo _. reflexivity.
Qed.

Lemma setCenter_idempotent_witness :
  setCenter 1 (setCenter 1 twoMaps) = setCenter 1 twoMaps.
Proof.
  apply setCenter_idempotent. discriminate.
Defined.

(** X8. Whatever the zoom of the primary map, the overview zoom that
    [setCenter] stores, and the zoom it gives the mini map, lies between 1
    and 7; and a primary map that is zoomed in further never gets an
    overview that is zoomed in less. *)
Theorem overview_zoom_range (w : World) (m : nat) (pm : Leaflet.MapObj) :
  leaflet w !! m = Some pm ->
  1 <= miniZoom (setCenter m w) <= 7 /\
  (forall mini mo,
      miniMapRef w = Some mini ->
      leaflet (setCenter m w) !! mini = Some mo ->
      1 <= Leaflet.zoom mo <= 7) /\
  (forall w2 m2 pm2,
      leaflet w2 !! m2 = Some pm2 ->
      Leaflet.zoom pm <= Leaflet.zoom pm2 ->
      miniZoom (setCenter m w) <= miniZoom (setCenter m2 w2)).
Proof.
  intros Hm. pose proof (setCenter_overview m w pm Hm) as Hov.
  unfold overview in Hov. injection Hov as _ Hz Hmini.
  split; [rewrite Hz; apply clamp_range|]. split.
  - intros mini mo Href Hmo. rewrite setCenter_miniMapRef, Href, Hmo in Hmini.
    destruct (leaflet w !! mini); [|discriminate Hmini].
    injection Hmini as _ Hzoom. rewrite Hzoom. apply clamp_range.
  - intros w2 m2 pm2 Hm2 Hle. pose proof (setCenter_overview m2 w2 pm2 Hm2) as Hov2.
    unfold overview in Hov2. injection Hov2 as _ Hz2 _. rewrite Hz, Hz2.
    apply clamp_monotone. lia.
Qed.

Lemma overview_zoom_range_witness : 1 <= miniZoom (setCenter 1 twoMaps) <= 7.
Proof.
  apply (overview_zoom_range twoMaps 1 (Leaflet.mkMap somewhere 6 [] []) eq_refl).
Defined.

Section SubscriptionFacts.

Lemma runCleanup_listeners (m j : nat) (f : Leaflet.Closure) (w : World) :
  listenersAt (runCleanup (Some (OffMoveZoomend m f)) w) j
  = if decide (m = j)
    then (fun ls => Leaflet.removeListener "zoomend" f
                      (Leaflet.removeListener "move" f ls)) <$> listenersAt w m
    else listenersAt w j.
Proof.
  unfold runCleanup, listenersAt. rewrite !lookup_onMap.
  case_decide as Hmj; [|reflexivity].
  rewrite ?decide_True by reflexivity.
  now destruct (leaflet w !! m).
Qed.

Lemma runTask_listeners (t : Task) (j : nat) (w : World) :
  listenersAt (runTask t w) j = listenersAt w j.
Proof.
  destruct t as [m]. unfold runTask, legendThen, allocate. cbn [fst].
  now rewrite listenersAt_onMap.
Qed.

Lemma settle_listeners (j : nat) (w : World) :
  listenersAt (settle w) j = listenersAt w j.
Proof.
  unfold settle.
  assert (H : forall ts w', listenersAt (fold_left (fun w t => runTask t w) ts w') j
                            = listenersAt w' j).
  { induction ts as [|t ts IH]; intros w'; simpl; [reflexivity|].
    rewrite IH. apply runTask_listeners. }
  now rewrite H.
Qed.

Lemma syncEffect_absent (m : nat) (w : World) :
  leaflet w !! m = None -> listenersAt (fst (syncEffect (Some m) w)) m = None.
Proof.
  intros Hm. unfold syncEffect, allocate. cbn [fst].
  unfold listenersAt. rewrite !lookup_onMap, !decide_True by reflexivity.
  pose proof (setCenter_listeners m m
    (mkWorld (leaflet w) (miniCenter w) (miniZoom w) (miniMapRef w)
             (pending w) (S (nextId w)))) as Hs.
  unfold listenersAt in Hs. cbn [leaflet] in Hs. rewrite Hm in Hs.
  unfold call. cbn [Leaflet.env].
  destruct (leaflet (setCenter m _) !! m); [discriminate Hs | reflexivity].
Qed.

(** After the kept cleanup has run, no map has a listener left. *)
Lemma cleanup_leaves_nobody (s : Instance) (j : nat) (ls : list Leaflet.Listener) :
  oneSubscription s ->
  listenersAt (runCleanup (kept s) (world s)) j = Some ls -> ls = [].
Proof.
  intros [Hinv Hkept]. destruct (kept s) as [[m f|k]|] eqn:Hk.
  - rewrite runCleanup_listeners. case_decide as Hmj.
    + subst j. destruct (listenersAt (world s) m) as [ls0|] eqn:Hm; [|discriminate].
      simpl. intros [= <-].
      destruct (Hinv m ls0 Hm) as [-> | (f' & [= <-] & ->)]; [reflexivity|].
      cbn [Leaflet.removeListener]. rewrite sameListener_refl.
      cbn [Leaflet.removeListener]. now rewrite sameListener_refl.
    + intros Hj. destruct (Hinv j ls Hj) as [-> | (f' & [= Heq _] & _)];
        [reflexivity | congruence].
  - now destruct (Hkept k).
  - simpl. intros Hj. destruct (Hinv j ls Hj) as [-> | (f' & Hf & _)];
      [reflexivity | discriminate Hf].
Qed.

Lemma step_oneSubscription (s : Instance) (e : Lifecycle) :
  oneSubscription s -> oneSubscription (step syncEffect s e).
Proof.
  intros Hs. pose proof (fun j ls => cleanup_leaves_nobody s j ls Hs) as Hclean.
  destruct e as [o| | |m c z t]; cbn [step].
  - case_decide as Hdeps; [exact Hs|].
    set (w1 := runCleanup (kept s) (world s)) in *.
    destruct o as [m|].
    + pose proof (fun j => syncEffect_elsewhere m j w1) as Helse.
      pose proof (syncEffect_registers m w1) as Hreg.
      pose proof (syncEffect_absent m w1) as Habs.
      assert (Hk : snd (syncEffect (Some m) w1)
                   = Some (OffMoveZoomend m (Leaflet.mkClosure (nextId w1) m)))
        by reflexivity.
      destruct (syncEffect (Some m) w1) as [w2 k]. cbn [fst snd] in *. subst k.
      split; [|discriminate]. cbn [world kept]. intros j ls Hj.
      destruct (decide (j = m)) as [->|Hne].
      * destruct (leaflet w1 !! m) as [pm|] eqn:Hpm.
        -- assert (Hnil : Leaflet.listeners pm = []).
           { apply (Hclean m). unfold listenersAt. now rewrite Hpm. }
           destruct (Hreg pm eq_refl Hnil) as (_ & Hpair & _).
           right. eexists. split; [reflexivity|]. congruence.
        -- rewrite (Habs eq_refl) in Hj. discriminate Hj.
      * left. apply (Hclean j). now rewrite <- (Helse j Hne).
    + split; [|discriminate]. cbn [syncEffect world kept]. intros j ls Hj.
      left. now apply (Hclean j).
  - split; [|discriminate]. cbn [world kept]. intros j ls Hj.
    left. now apply (Hclean j).
  - destruct Hs as [Hinv Hkept]. split; [|exact Hkept]. cbn [world kept].
    intros j ls. rewrite settle_listeners. apply Hinv.
  - destruct Hs as [Hinv Hkept]. split; [|exact Hkept]. cbn [world kept].
    intros j ls. rewrite fire_listeners, moveTo_listeners. apply Hinv.
Qed.

End SubscriptionFacts.

(** X9. Over any sequence of renders (with any map or none), unmounts,
    map movements and promise continuations, starting from maps without
    listeners, the component never holds more than one subscription: every
    map is without listeners, except the map named by the cleanup React
    currently keeps, which carries exactly that cleanup's [setCenter] for
    [move] and [zoomend]. *)
Theorem one_subscription_at_a_time (w : World) (es : list Lifecycle) :
  (forall j mo, leaflet w !! j = Some mo -> Leaflet.listeners mo = []) ->
  oneSubscription (run syncEffect w es).
Proof.
  intros Hw. unfold run.
  assert (Hinit : oneSubscription (mkInstance w None None)).
  { split; [|discriminate]. cbn [world kept]. intros j ls Hj. left.
    unfold listenersAt in Hj. destruct (leaflet w !! j) as [mo|] eqn:Hmo;
      [|discriminate Hj].
    injection Hj as <-. now apply (Hw j). }
  revert Hinit. generalize (mkInstance w None None).
  induction es as [|e es IH]; intros s Hs; simpl; [exact Hs|].
  apply IH. now apply step_oneSubscription.
Qed.

Lemma one_subscription_at_a_time_witness :
  oneSubscription
    (run syncEffect twoMaps
         [Render (Some 1%nat); Moved 1 origin 5 "move"; Render (Some 2%nat);
          Render (Some 1%nat); Unmount]).
Proof.
  apply one_subscription_at_a_time.
  intros j mo Hj.
  destruct (decide (j = 1%nat)) as [->|H1]; [now injection Hj as <-|].
  destruct (decide (j = 2%nat)) as [->|H2]; [now injection Hj as <-|].
  unfold twoMaps in Hj. cbn [leaflet] in Hj.
  rewrite !lookup_insert_ne, lookup_empty in Hj by congruence. discriminate Hj.
Defined.

(** X10. From a loaded, non-empty directory to both maps: the main map
    is created centred on the first location at zoom 6 and stored as the
    map handle; the first run of the effect then sets the overview state
    to that centre and zoom 4; and the mini map, created from that state,
    starts at that centre and zoom 4, as another instance than the main
    map. *)
Theorem first_location_centres_both_maps
        (c : Component) (w : World) (first : Location) (rest : list Location) :
  miniMapRef w = None ->
  let c1 := snd (loadEffect (Fulfilled (Object (Some (first :: rest)))) c) in
  let c2 := fst (mainMapCreated c1 w) in
  let w2 := snd (mainMapCreated c1 w) in
  let w3 := world (run syncEffect w2 [Render (map c2)]) in
  let w4 := miniMapCreated w3 in
  let here := Leaflet.mkLatLng (lat first) (lon first) in
  map c2 = Some (nextId w) /\
  viewOf <$> leaflet w4 !! nextId w = Some (here, 6) /\
  overview w4 = (Some here, 4, Some (here, 4)) /\
  miniMapRef w4 <> map c2.
Proof.
  intros Href. cbv zeta. unfold loadEffect, mainMapCreated, render, run. simpl.
  unfold call, setCenter. cbn [Leaflet.env leaflet].
  rewrite lookup_insert_eq. cbn [Leaflet.center Leaflet.zoom].
  cbn [miniMapRef setMiniZoom setMiniCenter]. rewrite Href.
  unfold miniMapCreated, onMap, withLeaflet, setMiniZoom, setMiniCenter, allocate.
  cbn [miniCenter miniZoom leaflet miniMapRef pending nextId].
  unfold overview. cbn [miniCenter miniZoom leaflet miniMapRef].
  rewrite lookup_insert_eq, lookup_insert_ne by lia.
  rewrite !lookup_alter_eq, lookup_insert_eq.
  split_and!; try reflexivity.
  intros [= H]. lia.
Qed.

Lemma first_location_centres_both_maps_witness :
  overview
    (miniMapCreated
       (world (run syncEffect
                   (snd (mainMapCreated (delhiSearch None) freshWorld))
                   [Render (map (fst (mainMapCreated (delhiSearch None) freshWorld)))])))
  = (Some somewhere, 4, Some (somewhere, 4)).
Proof.
  apply (first_location_centres_both_maps (delhiSearch None) freshWorld
           newDelhi [delhiHeights] eq_refl).
Defined.

(** ** More on the legend control *)

(** One round of mounting against [m], resolving the import and
    unmounting leaves one more control on [m] and React with nothing to
    run. *)
Lemma legend_round (w : World) (m : nat) (mo : Leaflet.MapObj)
      (rest : list Lifecycle) :
  leaflet w !! m = Some mo ->
  pending w = [] ->
  exists w',
    run legendEffect w (Render (Some m) :: Settle :: Unmount :: rest)
    = run legendEffect w' rest /\
    leaflet w' !! m = Some (Leaflet.addControl (nextId w) mo) /\
    pending w' = [] /\
    nextId w' = S (nextId w).
Proof.
  intros Hm Hp. eexists. split; [|split; [|split]].
  - unfold run. cbn [fold_left step deps kept world runCleanup].
    rewrite decide_False by discriminate.
    cbn [legendEffect world kept deps runCleanup]. reflexivity.
  - unfold settle, withPending. cbn [pending leaflet]. rewrite Hp.
    cbn [app fold_left runTask legendThen allocate fst nextId].
    unfold onMap, withLeaflet. cbn [leaflet].
    now rewrite lookup_alter_eq, Hm.
  - unfold settle, withPending. cbn [pending]. rewrite Hp. reflexivity.
  - unfold settle, withPending. cbn [pending]. rewrite Hp. reflexivity.
Qed.

(** X11. Legends pile up one per mount: after [n] rounds of mounting the
    legend against a map, letting the import resolve and unmounting, the
    map carries [n] legend controls more than before, none of the earlier
    ones having been removed. *)
Theorem legends_pile_up (n : nat) (w : World) (m : nat) (mo : Leaflet.MapObj) :
  leaflet w !! m = Some mo ->
  pending w = [] ->
  legendsOn (world (run legendEffect w (remounts n m))) m
  = Some (Leaflet.controls mo ++ seq (nextId w) n)%list.
Proof.
  revert w mo. induction n as [|n IH]; intros w mo Hm Hp.
  - unfold legendsOn, run. simpl. now rewrite Hm, app_nil_r.
  - cbn [remounts].
    destruct (legend_round w m mo (remounts n m) Hm Hp) as (w' & -> & Hm' & Hp' & Hn').
    rewrite (IH w' _ Hm' Hp'), Hn'. cbn [Leaflet.addControl Leaflet.controls seq].
    now rewrite <- app_assoc.
Qed.

Lemma legends_pile_up_witness :
  legendsOn (world (run legendEffect twoPrimaries (remounts 3 1))) 1
  = Some [0; 1; 2]%nat.
Proof.
  apply (legends_pile_up 3 twoPrimaries 1 (Leaflet.mkMap somewhere 6 [] []));
    reflexivity.
Defined.

(** ** The information panel *)

Lemma getAqiColor_band (v : Value) :
  AQInfoPanel.bandOfClass (AQInfoPanel.getAqiColor v) = bandOfColor (getColor v).
Proof.
  unfold AQInfoPanel.getAqiColor, getColor.
  repeat match goal with |- context [if ?b then _ else _] => destruct b end;
    reflexivity.
Qed.

(** X12. The badge of the information panel and the marker on the map
    name the same band for every location whose AQI is anything but
    [undefined]. For a location without an AQI the two part ways: the
    panel falls back to 40, shows the Good class around the text "N/A",
    while the marker is maroon, the Hazardous colour. *)
Theorem panel_band_and_marker (i : nat) (loc : Location) :
  (aqi loc <> Undefined ->
   AQInfoPanel.bandOfClass (AQInfoPanel.aqiClass (aqi loc))
   = bandOfColor (iconBackground (marker i loc))) /\
  (aqi loc = Undefined ->
   AQInfoPanel.bandOfClass (AQInfoPanel.aqiClass (aqi loc)) = Some Good /\
   AQInfoPanel.aqiText (aqi loc) = Str "N/A" /\
   bandOfColor (iconBackground (marker i loc)) = Some Hazardous).
Proof.
  cbn [marker iconBackground]. unfold AQInfoPanel.aqiClass, AQInfoPanel.aqiText.
  split.
  - intros Hdef. destruct (aqi loc) as [| |b|n|s]; cbn [coalesce];
      try apply getAqiColor_band; [congruence | reflexivity].
  - intros ->. repeat split.
Qed.

Lemma panel_band_and_marker_witness :
  AQInfoPanel.bandOfClass (AQInfoPanel.aqiClass (aqi newDelhi))
  = bandOfColor (iconBackground (marker 0 newDelhi)).
Proof.
  apply (proj1 (panel_band_and_marker 0 newDelhi)). discriminate.
Defined.

(** X13. The daily forecast shows the "No forecast data" line exactly
    for an empty forecast; otherwise it shows the first five entries and
    no more, in their order, the i-th row keyed i with the date, the AQI
    and the [getAqiColor] class of the i-th entry. *)
Theorem forecast_first_five (forecast : list AQInfoPanel.Forecast) :
  (AQInfoPanel.forecastRows forecast = None <-> forecast = []) /\
  (forall rows,
      AQInfoPanel.forecastRows forecast = Some rows ->
      List.length rows = Nat.min 5 (List.length forecast) /\
      forall i f,
        (i < 5)%nat ->
        forecast !! i = Some f ->
        rows !! i
        = Some (AQInfoPanel.mkRow i (AQInfoPanel.date f)
                  (AQInfoPanel.getAqiColor (AQInfoPanel.aqi f))
                  (AQInfoPanel.aqi f))).
Proof.
  unfold AQInfoPanel.forecastRows. split.
  - destruct forecast; split; congruence.
  - intros rows Hrows.
    assert (Heq : rows = mapIndexed AQInfoPanel.forecastRow 0 (take 5 forecast)).
    { destruct forecast; [discriminate Hrows | now injection Hrows]. }
    subst rows. split.
    + now rewrite mapIndexed_length, length_take.
    + intros i f Hi Hf.
      rewrite mapIndexed_lookup, lookup_take_lt, Hf by exact Hi. reflexivity.
Qed.

Lemma forecast_first_five_witness :
  List.length
    (mapIndexed AQInfoPanel.forecastRow 0
       (take 5 (repeat (AQInfoPanel.mkForecast (Str "Mon") (Num (ofZ 42))) 7)))
  = 5%nat.
Proof.
  apply (proj2 (forecast_first_five
                  (repeat (AQInfoPanel.mkForecast (Str "Mon") (Num (ofZ 42))) 7))).
  reflexivity.
Defined.

(** ** The city map *)

Lemma AQMap_numeric (name : Value) (la lo : Q) :
  AQMap.AQMap (Some (AQMap.mkCity name (Num (Fin la)) (Num (Fin lo))))
  = if Qeq_bool la 0 || Qeq_bool lo 0 then None
    else Some (AQMap.mkCityMap (Num (Fin la), Num (Fin lo)) 10
                               (Num (Fin la), Num (Fin lo)) name).
Proof.
  unfold AQMap.AQMap. cbn [AQMap.lat AQMap.lon AQMap.name ToBoolean].
  now rewrite !negb_involutive.
Qed.

Lemma zero_coordinate (la lo : Q) :
  Qeq_bool la 0 || Qeq_bool lo 0 = true <-> la == 0 \/ lo == 0.
Proof.
  rewrite orb_true_iff. now rewrite !Qeq_bool_iff.
Qed.

(** X14. The city map is not rendered for a city on the equator or on the
    prime meridian: with numeric coordinates, [AQMap] returns nothing
    exactly when the latitude or the longitude is zero; it also returns
    nothing without a city or when a coordinate is missing, and otherwise
    a map at zoom 10 centred where its one marker is. *)
Theorem AQMap_zero_coordinate (name : Value) (la lo : Q) :
  (AQMap.AQMap (Some (AQMap.mkCity name (Num (Fin la)) (Num (Fin lo)))) = None
   <-> la == 0 \/ lo == 0) /\
  (~ (la == 0 \/ lo == 0) ->
   AQMap.AQMap (Some (AQMap.mkCity name (Num (Fin la)) (Num (Fin lo))))
   = Some (AQMap.mkCityMap (Num (Fin la), Num (Fin lo)) 10
                           (Num (Fin la), Num (Fin lo)) name)) /\
  AQMap.AQMap None = None /\
  (forall lat, AQMap.AQMap (Some (AQMap.mkCity name lat Undefined)) = None) /\
  (forall lon, AQMap.AQMap (Some (AQMap.mkCity name Undefined lon)) = None).
Proof.
  rewrite AQMap_numeric. pose proof (zero_coordinate la lo) as Hzero.
  destruct (Qeq_bool la 0 || Qeq_bool lo 0).
  - split_and!; try reflexivity.
    + split; [intros _; now apply Hzero | reflexivity].
    + intros Hnot. destruct Hnot. now apply Hzero.
    + intros lat. unfold AQMap.AQMap. cbn [AQMap.lat AQMap.lon ToBoolean].
      now rewrite orb_true_r.
  - split_and!; try reflexivity.
    + split; [discriminate|]. intros H. apply Hzero in H. discriminate H.
    + intros lat. unfold AQMap.AQMap. cbn [AQMap.lat AQMap.lon ToBoolean].
      now rewrite orb_true_r.
Qed.

Lemma AQMap_zero_coordinate_witness :
  AQMap.AQMap (Some (AQMap.mkCity (Str "Quito") (Num (Fin 0)) (Num (Fin (-157 # 2)))))
  = None.
Proof.
  apply (proj1 (AQMap_zero_coordinate (Str "Quito") 0 (-157 # 2))).
  left. reflexivity.
Defined.

(** ** The alert banner *)

Section AlertFacts.

Lemma ownProperty_missing (o : list (string * string)) (key : string) :
  ~ In key (List.map fst o) -> AQAlert.ownProperty o key = None.
Proof.
  induction o as [|[k v] o IH]; simpl; [reflexivity|].
  intros Hnot. destruct (String.eqb_spec k key) as [->|Hne]; [tauto|].
  apply IH. tauto.
Qed.

Lemma existsb_eqb (key : string) (l : list string) :
  existsb (String.eqb key) l = true <-> In key l.
Proof.
  rewrite existsb_exists. split.
  - intros (x & Hx & Heq). apply String.eqb_eq in Heq. now subst.
  - intros Hin. exists key. split; [exact Hin | apply String.eqb_refl].
Qed.

Lemma alert_step_intervals (s : AQAlert.State) (e : AQAlert.Event) :
  AQAlert.intervals s
  = match AQAlert.kept s with Some id => [id] | None => [] end ->
  AQAlert.intervals (AQAlert.step s e)
  = match AQAlert.kept (AQAlert.step s e) with Some id => [id] | None => [] end.
Proof.
  intros Hs. destruct e as [| |id|a]; cbn [AQAlert.step].
  - destruct (AQAlert.kept s) eqn:Hk; [now rewrite Hk|].
    unfold AQAlert.effect. cbn [AQAlert.intervals AQAlert.kept].
    now rewrite Hs.
  - destruct (AQAlert.kept s) as [id|] eqn:Hk; [|now rewrite Hk].
    unfold AQAlert.clearInterval. cbn [AQAlert.intervals AQAlert.kept].
    rewrite Hs. cbn [List.filter]. now rewrite Nat.eqb_refl.
  - destruct (existsb _ _); exact Hs.
  - exact Hs.
Qed.

End AlertFacts.

(** X15. The banner takes the class listed for the alert's level; a level
    that is not one of the five listed, and not a name objects inherit,
    gets the grey fallback ["bg-gray-100"]; a level that is such an
    inherited name finds the inherited member, not a class. Without an
    alert nothing is rendered. *)
Theorem alert_level_class (a : AQAlert.Alert) :
  (forall cls, In (AQAlert.level a, cls) AQAlert.colorMap ->
               AQAlert.levelClass a = AQAlert.Own cls) /\
  (~ In (AQAlert.level a) (List.map fst AQAlert.colorMap) ->
   ~ In (AQAlert.level a) AQAlert.objectPrototype ->
   AQAlert.levelClass a = AQAlert.Own "bg-gray-100") /\
  (In (AQAlert.level a) AQAlert.objectPrototype ->
   AQAlert.levelClass a = AQAlert.Inherited (AQAlert.level a)) /\
  AQAlert.render None = None.
Proof.
  unfold AQAlert.levelClass, AQAlert.get. split_and!; [| | |reflexivity].
  - intros cls Hin. simpl in Hin.
    repeat (destruct Hin as [[= <- <-] | Hin]; [reflexivity|]). destruct Hin.
  - intros Hown Hproto. rewrite (ownProperty_missing _ _ Hown).
    destruct (existsb _ _) eqn:Hex; [|reflexivity].
    apply existsb_eqb in Hex. now destruct Hproto.
  - intros Hin. simpl in Hin.
    repeat (destruct Hin as [<- | Hin]; [reflexivity|]). destruct Hin.
Qed.

Lemma alert_level_class_witness :
  AQAlert.levelClass (AQAlert.mkAlert "UNHEALTHY_SENSITIVE" "Limit outdoor activity")
  = AQAlert.Own "bg-gray-100".
Proof.
  apply (proj1 (proj2 (alert_level_class
           (AQAlert.mkAlert "UNHEALTHY_SENSITIVE" "Limit outdoor activity")))).
  - cbn. intros H. repeat (destruct H as [H | H]; [discriminate H|]). exact H.
  - cbn. intros H. repeat (destruct H as [H | H]; [discriminate H|]). exact H.
Defined.

(** X16. The refresh timer of the banner never leaks: over any sequence
    of mounts, unmounts, timer ticks and responses, the only live
    interval is the one whose id the kept cleanup holds, and there is none
    while unmounted. So while unmounted no tick sends a request, and while
    mounted each tick of the kept interval sends exactly one. *)
Theorem alert_timer_discipline (es : list AQAlert.Event) :
  let s := AQAlert.run es in
  AQAlert.intervals s
  = match AQAlert.kept s with Some id => [id] | None => [] end /\
  (AQAlert.kept s = None ->
   forall ticks : list nat,
     AQAlert.requests (fold_left AQAlert.step (List.map AQAlert.Tick ticks) s)
     = AQAlert.requests s) /\
  (forall id, AQAlert.kept s = Some id ->
              AQAlert.requests (AQAlert.step s (AQAlert.Tick id))
              = S (AQAlert.requests s)).
Proof.
  cbv zeta.
  assert (Hinv : AQAlert.intervals (AQAlert.run es)
                 = match AQAlert.kept (AQAlert.run es) with
                   | Some id => [id]
                   | None => []
                   end).
  { unfold AQAlert.run.
    assert (H0 : AQAlert.intervals AQAlert.initial
                 = match AQAlert.kept AQAlert.initial with
                   | Some id => [id]
                   | None => []
                   end) by reflexivity.
    revert H0. generalize AQAlert.initial.
    induction es as [|e es IH]; intros s Hs; simpl; [exact Hs|].
    apply IH. now apply alert_step_intervals. }
  split; [exact Hinv|]. split.
  - intros Hk ticks. rewrite Hk in Hinv.
    induction ticks as [|id ticks IH]; simpl; [reflexivity|].
    now rewrite Hinv.
  - intros id Hk. rewrite Hk in Hinv. cbn [AQAlert.step]. rewrite Hinv.
    cbn [existsb]. now rewrite Nat.eqb_refl.
Qed.

Lemma alert_timer_discipline_witness :
  AQAlert.requests
    (fold_left AQAlert.step (List.map AQAlert.Tick [0; 0; 1]%nat)
       (AQAlert.run [AQAlert.Mount; AQAlert.Tick 0; AQAlert.Unmount]))
  = 2%nat.
Proof.
  apply (proj1 (proj2 (alert_timer_discipline
                         [AQAlert.Mount; AQAlert.Tick 0; AQAlert.Unmount]))).
  reflexivity.
Defined.
